(** * Origami test generator: geometry, safety oracle and construction engine

    A shallow embedding of [wojtekmal_gen_in.cpp].

    The C++ program computes in [double].  The geometry and the safety
    oracle are embedded once, over an abstract arithmetic [Arith num] that
    lists exactly the operations the source applies to doubles.  Two
    instances are given:
    - [RArith], the real numbers: the idealised arithmetic in which the
      properties of the specification are stated and proved;
    - [F64], IEEE binary64 (Rocq's primitive floats): the arithmetic the
      program runs in, used to evaluate the very same definitions on
      concrete doubles.

    The construction engine [generate_test] is embedded over the same
    abstract arithmetic, with the pseudo-random stream as explicit state
    threaded through a small state monad, and the output file as the list
    of records written so far.  What depends only on the control flow is
    proved for every arithmetic; what depends on the values is proved over
    the reals.  Where rounding decides, the statement is also settled in
    binary64: from the specification of the primitive floats when it holds
    for all doubles, on concrete doubles when it fails. *)

From Stdlib Require Import Floats String DecimalString.
From Stdlib Require DecimalZ.
From Stdlib Require Import ZArith List Bool Reals Lra Lia.
Import ListNotations.

Set Implicit Arguments.

(** ** Arithmetic of the source's [double] *)

Class Arith (num : Type) : Type := {
  of_Z   : Z -> num;            (* integer literals *)
  add    : num -> num -> num;
  sub    : num -> num -> num;
  mul    : num -> num -> num;
  div    : num -> num -> num;
  nsqrt  : num -> num;          (* std::sqrt *)
  nabs   : num -> num;          (* std::abs  *)
  ltb    : num -> num -> bool   (* operator< ; [a > b] is [ltb b a] *)
}.

(** [std::cos], [std::sin] and the constant [M_PI] of [<cmath>]. *)
Class Trig (num : Type) : Type := {
  ncos : num -> num;
  nsin : num -> num;
  M_PI : num
}.

Declare Scope num_scope.
Delimit Scope num_scope with num.
Infix "+" := add : num_scope.
Infix "-" := sub : num_scope.
Infix "*" := mul : num_scope.
Infix "/" := div : num_scope.
Infix "<?" := ltb : num_scope.
Notation "a >? b" := (ltb b a) (only parsing) : num_scope.

(** ** Data model (the structs of the source) *)

Record Point (num : Type) : Type := mkPoint { x : num; y : num }.
Record Line (num : Type) : Type := mkLine { p1 : Point num; p2 : Point num }.
Record Circle (num : Type) : Type := mkCircle { c : Point num; r : num }.
Record SheetGeometry (num : Type) : Type := mkSheet {
  points  : list (Point num);
  lines   : list (Line num);
  circles : list (Circle num)
}.

Section Geometry.

Context {num : Type} {A : Arith num}.
Local Open Scope num_scope.

(** [const double DANGER_EPS = 0.05;]  The decimal literal is written as
    the quotient 5 / 100; in binary64 the quotient of these two exact
    values rounds to the double nearest to 0.05, the value of the
    literal. *)
Definition DANGER_EPS : num := of_Z 5 / of_Z 100.

(** [const double ZERO_TOLERANCE = 1e-9;], written 1 / 10^9 in the same
    way. *)
Definition ZERO_TOLERANCE : num := of_Z 1 / of_Z 1000000000.

(** [double distSq(Point p1, Point p2)] *)
Definition distSq (p1 p2 : Point num) : num :=
  (p1.(x) - p2.(x)) * (p1.(x) - p2.(x)) + (p1.(y) - p2.(y)) * (p1.(y) - p2.(y)).

(** [double dist(Point p1, Point p2)] *)
Definition dist (p1 p2 : Point num) : num :=
  nsqrt (distSq p1 p2).

(** [double distPointLine(Point p, Line l)] *)
Definition distPointLine (p : Point num) (l : Line num) : num :=
  let A := p.(x) - l.(p1).(x) in
  let B := p.(y) - l.(p1).(y) in
  let C := l.(p2).(x) - l.(p1).(x) in
  let D := l.(p2).(y) - l.(p1).(y) in
  let dot := A * C + B * D in
  let len_sq := C * C + D * D in
  if len_sq <? ZERO_TOLERANCE then dist p l.(p1)
  else
    let param := dot / len_sq in
    let xx := l.(p1).(x) + param * C in
    let yy := l.(p1).(y) + param * D in
    dist p (mkPoint xx yy).

(** [Point reflectPoint(Point p, Line l)] *)
Definition reflectPoint (p : Point num) (l : Line num) : Point num :=
  let A := p.(x) - l.(p1).(x) in
  let B := p.(y) - l.(p1).(y) in
  let C := l.(p2).(x) - l.(p1).(x) in
  let D := l.(p2).(y) - l.(p1).(y) in
  let len_sq := C * C + D * D in
  if len_sq <? ZERO_TOLERANCE then p
  else
    let dot := A * C + B * D in
    let param := dot / len_sq in
    let xx := l.(p1).(x) + param * C in
    let yy := l.(p1).(y) + param * D in
    mkPoint (of_Z 2 * xx - p.(x)) (of_Z 2 * yy - p.(y)).

(** ** Safety oracle

    Each [for] loop of the source returns [false] at the first feature
    that satisfies its [if]; this is [existsb] of that condition. *)

(** [bool isSafePoint(Point p, const SheetGeometry& geom)] *)
Definition isSafePoint (p : Point num) (geom : SheetGeometry num) : bool :=
  if existsb (fun pt =>
       let d := dist p pt in
       (d >? ZERO_TOLERANCE) && (d <? DANGER_EPS)) geom.(points)
  then false
  else if existsb (fun l =>
       let d := distPointLine p l in
       (d >? ZERO_TOLERANCE) && (d <? DANGER_EPS)) geom.(lines)
  then false
  else if existsb (fun c0 =>
       let d_center := dist p c0.(c) in
       let d_boundary := nabs (d_center - c0.(r)) in
       (d_boundary >? ZERO_TOLERANCE) && (d_boundary <? DANGER_EPS)) geom.(circles)
  then false
  else true.

(** [bool isSafeFold(Line l, const SheetGeometry& geom)] *)
Definition isSafeFold (l : Line num) (geom : SheetGeometry num) : bool :=
  if existsb (fun pt =>
       let d := distPointLine pt l in
       (d >? ZERO_TOLERANCE) && (d <? DANGER_EPS)) geom.(points)
  then false
  else if existsb (fun c0 =>
       let d := distPointLine c0.(c) l in
       if (d >? ZERO_TOLERANCE) && (d <? DANGER_EPS) then true
       else (nabs (d - c0.(r)) >? ZERO_TOLERANCE) && (nabs (d - c0.(r)) <? DANGER_EPS))
       geom.(circles)
  then false
  else true.

End Geometry.

(** ** The pseudo-random stream

    [std::mt19937] and the standard distributions belong to the C++
    library.  They are taken as an interface: a state [G] and the three
    ways the source draws from it. *)

Record Random (num G : Type) : Type := {
  (* rng() *)
  rng_call : G -> Z * G;
  (* std::uniform_int_distribution<int>(a, b)(rng) *)
  uniform_int_distribution : Z -> Z -> G -> Z * G;
  (* std::uniform_real_distribution<double>(a, b)(rng) *)
  uniform_real_distribution : num -> num -> G -> num * G
}.

(** What the C++ standard promises of the integer distribution: a draw
    from [(a, b)] with [a <= b] lies between [a] and [b]. *)
Definition IntContract {num G : Type} (rnd : Random num G) : Prop :=
  forall a b g, (a <= b)%Z ->
    (a <= fst (uniform_int_distribution rnd a b g) <= b)%Z.

(** State monad threading the stream through the draws. *)
Definition Gen (G T : Type) : Type := G -> T * G.

Definition ret {G T : Type} (v : T) : Gen G T := fun g => (v, g).

Definition bind {G T U : Type} (m : Gen G T) (k : T -> Gen G U) : Gen G U :=
  fun g => let (v, g') := m g in k v g'.

Notation "v <- m ;; k" := (bind m (fun v => k))
  (at level 61, m at next level, right associativity).

(** ** Output records

    One constructor per line format written to the file; the rendering of
    the numbers as text is left out. *)
Inductive OutLine (num : Type) : Type :=
| Header (n q : Z)
| OutP (x1 y1 x2 y2 : num)
| OutK (cx cy cr : num)
| OutZ (k : Z) (x1 y1 x2 y2 : num)
| OutQ (k : Z) (qx qy : num).

Arguments Header {num} n q.

(** [const int MAX_TRIES = 100;] *)
Definition MAX_TRIES : nat := 100.

(** [v.empty()] *)
Definition empty {T : Type} (v : list T) : bool :=
  match v with [] => true | _ :: _ => false end.

(** [v[i]]; an index outside the vector is undefined behaviour in C++,
    here it yields [d].  Under [IntContract] every index the engine uses
    is inside. *)
Definition at_index {T : Type} (v : list T) (i : Z) (d : T) : T :=
  nth (Z.to_nat i) v d.

(** The retry loop
    [for (int try_count = 0; try_count < MAX_TRIES; ++try_count) { body }]
    where [body] either breaks with an accepted candidate or continues.
    [remaining] is [MAX_TRIES - try_count]; the result carries the final
    value of [try_count]. *)
Fixpoint retry {G T : Type} (body : Gen G (option T)) (remaining try_count : nat)
  : Gen G (option T * nat) :=
  match remaining with
  | O => ret (None, try_count)
  | S remaining' =>
      res <- body ;;
      match res with
      | Some v => ret (Some v, try_count)
      | None => retry body remaining' (S try_count)
      end
  end.

(** The stream after [j] passes through [body]. *)
Fixpoint after_attempts {G T : Type} (body : Gen G (option T)) (j : nat) (g : G) : G :=
  match j with
  | O => g
  | S j' => after_attempts body j' (snd (body g))
  end.

(** ** The construction engine *)

Section Engine.

Context {num : Type} {A : Arith num} {T : Trig num}.
Context {G : Type} (rnd : Random num G).
Local Open Scope num_scope.

(** The empty geometry: the sentinel [sheets[0]]. *)
Definition no_geometry : SheetGeometry num := mkSheet [] [] [].

(** [std::uniform_real_distribution<double> coord_dist(-10.0, 10.0);] *)
Definition coord_dist : Gen G num :=
  uniform_real_distribution rnd (of_Z (-10)) (of_Z 10).

(** [std::uniform_real_distribution<double> size_dist(1.0, 5.0);] *)
Definition size_dist : Gen G num :=
  uniform_real_distribution rnd (of_Z 1) (of_Z 5).

(** [std::uniform_int_distribution<int> type_dist(0, 2);] *)
Definition type_dist : Gen G Z := uniform_int_distribution rnd 0 2.

(** The choice of the fold line for a drawn [strategy] (the [if] chain
    after the draw of [strategy] in the fold branch). *)
Definition choose_fold_line (strategy : Z) (baseGeom : SheetGeometry num)
  : Gen G (Line num) :=
  if (strategy =? 0)%Z || empty baseGeom.(points) then
    ax <- coord_dist ;; ay <- coord_dist ;;
    bx <- coord_dist ;; by_ <- coord_dist ;;
    ret (mkLine (mkPoint ax ay) (mkPoint bx by_))
  else if (strategy =? 1)%Z then
    idx <- uniform_int_distribution rnd 0
             (Z.of_nat (length baseGeom.(points)) - 1)%Z ;;
    let p := at_index baseGeom.(points) idx (mkPoint (of_Z 0) (of_Z 0)) in
    angle <- uniform_real_distribution rnd (of_Z 0) (of_Z 2 * M_PI) ;;
    ret (mkLine p (mkPoint (p.(x) + ncos angle) (p.(y) + nsin angle)))
  else
    if negb (empty baseGeom.(circles)) then
      idx <- uniform_int_distribution rnd 0
               (Z.of_nat (length baseGeom.(circles)) - 1)%Z ;;
      let c0 := at_index baseGeom.(circles) idx
                  (mkCircle (mkPoint (of_Z 0) (of_Z 0)) (of_Z 0)) in
      angle <- uniform_real_distribution rnd (of_Z 0) (of_Z 2 * M_PI) ;;
      let tangentPoint :=
        mkPoint (c0.(c).(x) + c0.(r) * ncos angle)
                (c0.(c).(y) + c0.(r) * nsin angle) in
      ret (mkLine tangentPoint
             (mkPoint (tangentPoint.(x) - nsin angle)
                      (tangentPoint.(y) + ncos angle)))
    else
      ax <- coord_dist ;; ay <- coord_dist ;;
      bx <- coord_dist ;; by_ <- coord_dist ;;
      ret (mkLine (mkPoint ax ay) (mkPoint bx by_)).

(** The two guards on a candidate fold line and, past them, the commit:
    the new geometry and the ["Z"] record. *)
Definition check_and_commit (k : Z) (baseGeom : SheetGeometry num)
    (foldLine : Line num) : option (SheetGeometry num * OutLine num) :=
  if distSq foldLine.(p1) foldLine.(p2) <? ZERO_TOLERANCE then None
  else if negb (isSafeFold foldLine baseGeom) then None
  else
    let newGeom :=
      mkSheet
        (baseGeom.(points) ++
           map (fun p => reflectPoint p foldLine) baseGeom.(points))
        ((baseGeom.(lines) ++
           map (fun l => mkLine (reflectPoint l.(p1) foldLine)
                                (reflectPoint l.(p2) foldLine)) baseGeom.(lines))
           ++ [foldLine])
        (baseGeom.(circles) ++
           map (fun c0 => mkCircle (reflectPoint c0.(c) foldLine) c0.(r))
               baseGeom.(circles)) in
    Some (newGeom,
          OutZ k foldLine.(p1).(x) foldLine.(p1).(y)
                 foldLine.(p2).(x) foldLine.(p2).(y)).

(** One pass through the body of the per-sheet retry loop: [Some] when
    the body reaches [sheets.push_back(newGeom); file << lineOutput;
    success = true; break;], [None] when it reaches [continue]. *)
Definition sheet_attempt (i : Z) (sheets : list (SheetGeometry num))
  : Gen G (option (SheetGeometry num * OutLine num)) :=
  type0 <- (if (i =? 1)%Z then (v <- rng_call rnd ;; ret (v mod 2)%Z)
            else type_dist) ;;
  let type := if (type0 =? 2)%Z && (i =? 1)%Z then 0%Z else type0 in
  if (type =? 0)%Z then
    x1 <- coord_dist ;; y1 <- coord_dist ;;
    w <- size_dist ;; h <- size_dist ;;
    let x2 := x1 + w in
    let y2 := y1 + h in
    ret (Some
      (mkSheet
         [mkPoint x1 y1; mkPoint x2 y1; mkPoint x2 y2; mkPoint x1 y2]
         [mkLine (mkPoint x1 y1) (mkPoint x2 y1);
          mkLine (mkPoint x2 y1) (mkPoint x2 y2);
          mkLine (mkPoint x2 y2) (mkPoint x1 y2);
          mkLine (mkPoint x1 y2) (mkPoint x1 y1)]
         [],
       OutP x1 y1 x2 y2))
  else if (type =? 1)%Z then
    cx <- coord_dist ;; cy <- coord_dist ;;
    cr <- size_dist ;;
    ret (Some
      (mkSheet [mkPoint cx cy] [] [mkCircle (mkPoint cx cy) cr],
       OutK cx cy cr))
  else
    k <- uniform_int_distribution rnd 1 (i - 1)%Z ;;
    let baseGeom := at_index sheets k no_geometry in
    strategy <- uniform_int_distribution rnd 0 2 ;;
    foldLine <- choose_fold_line strategy baseGeom ;;
    ret (check_and_commit k baseGeom foldLine).

(** The loop [for (int i = 1; i <= n; ++i)], [count] iterations from
    index [i] on.  The result is [false] when a retry loop ends with
    [success == false] (the source then closes the file and returns). *)
Fixpoint sheets_loop (count : nat) (i : Z)
    (sheets : list (SheetGeometry num)) (file : list (OutLine num))
  : Gen G (bool * list (SheetGeometry num) * list (OutLine num)) :=
  match count with
  | O => ret (true, sheets, file)
  | S count' =>
      res <- retry (sheet_attempt i sheets) MAX_TRIES 0 ;;
      match fst res with
      | Some (newGeom, lineOutput) =>
          sheets_loop count' (i + 1)%Z (sheets ++ [newGeom]) (file ++ [lineOutput])
      | None => ret (false, sheets, file)
      end
  end.

(** The choice of the query point for a drawn [strategy]. *)
Definition choose_query_point (strategy : Z) (geom : SheetGeometry num)
  : Gen G (Point num) :=
  if (strategy =? 0)%Z || empty geom.(points) then
    qx <- coord_dist ;; qy <- coord_dist ;;
    ret (mkPoint qx qy)
  else
    idx <- uniform_int_distribution rnd 0
             (Z.of_nat (length geom.(points)) - 1)%Z ;;
    ret (at_index geom.(points) idx (mkPoint (of_Z 0) (of_Z 0))).

(** One pass through the body of the per-query retry loop. *)
Definition query_attempt (n : Z) (sheets : list (SheetGeometry num))
  : Gen G (option (OutLine num)) :=
  k <- uniform_int_distribution rnd 1 n ;;
  let geom := at_index sheets k no_geometry in
  strategy <- uniform_int_distribution rnd 0 2 ;;
  p <- choose_query_point strategy geom ;;
  if isSafePoint p geom then ret (Some (OutQ k p.(x) p.(y)))
  else ret None.

(** The loop [for (int j = 0; j < q; ++j)], [count] iterations. *)
Fixpoint queries_loop (count : nat) (n : Z)
    (sheets : list (SheetGeometry num)) (file : list (OutLine num))
  : Gen G (bool * list (OutLine num)) :=
  match count with
  | O => ret (true, file)
  | S count' =>
      res <- retry (query_attempt n sheets) MAX_TRIES 0 ;;
      match fst res with
      | Some lineOutput => queries_loop count' n sheets (file ++ [lineOutput])
      | None => ret (false, file)
      end
  end.

(** The sheets phase of [generate_test]: the state after the first loop,
    started from the sentinel sheet 0 and the header line. *)
Definition sheets_phase (n q : Z)
  : Gen G (bool * list (SheetGeometry num) * list (OutLine num)) :=
  sheets_loop (Z.to_nat n) 1 [no_geometry] [Header n q].

(** [bool generate_test(fs::path path, std::mt19937& rng, int n, int q)].
    [is_open] tells whether the output stream could be opened on [path];
    the result is the returned flag and the content of the file when the
    function returns. *)
Definition generate_test (is_open : bool) (n q : Z)
  : Gen G (bool * list (OutLine num)) :=
  if negb is_open then ret (false, [])
  else
    st <- sheets_phase n q ;;
    let '(ok, sheets, file) := st in
    if negb ok then ret (false, file)
    else queries_loop (Z.to_nat q) n sheets file.

(** ** Notions used in the statements *)

(** The test [d > ZERO_TOLERANCE && d < DANGER_EPS] of the oracle: [d]
    lies strictly between the two thresholds. *)
Definition in_band (d : num) : bool :=
  (d >? ZERO_TOLERANCE) && (d <? DANGER_EPS).

(** The fully random constructions: a line through two random points,
    and a random point. *)
Definition random_line : Gen G (Line num) :=
  ax <- coord_dist ;; ay <- coord_dist ;;
  bx <- coord_dist ;; by_ <- coord_dist ;;
  ret (mkLine (mkPoint ax ay) (mkPoint bx by_)).

Definition random_point : Gen G (Point num) :=
  qx <- coord_dist ;; qy <- coord_dist ;;
  ret (mkPoint qx qy).

(** The fold lifecycle, as the specification words it: [new] is [src]
    together with the mirror image of every point, line and circle of
    [src] across [foldLine], and [foldLine] itself as the last line. *)
Definition folded_from (src new : SheetGeometry num) (foldLine : Line num) : Prop :=
  new.(points) =
    src.(points) ++ map (fun p => reflectPoint p foldLine) src.(points) /\
  new.(lines) =
    (src.(lines) ++
       map (fun l => mkLine (reflectPoint l.(p1) foldLine)
                            (reflectPoint l.(p2) foldLine)) src.(lines))
      ++ [foldLine] /\
  new.(circles) =
    src.(circles) ++
      map (fun c0 => mkCircle (reflectPoint c0.(c) foldLine) c0.(r)) src.(circles).

(** The three ways a pass can accept. *)
Inductive accepted (i : Z) (sheets : list (SheetGeometry num))
  : SheetGeometry num -> OutLine num -> Prop :=
| accepted_rectangle (x1 y1 : num) (gw gh : G) :
    let w := fst (size_dist gw) in
    let h := fst (size_dist gh) in
    accepted i sheets
      (mkSheet
         [mkPoint x1 y1; mkPoint (x1 + w) y1;
          mkPoint (x1 + w) (y1 + h); mkPoint x1 (y1 + h)]
         [mkLine (mkPoint x1 y1) (mkPoint (x1 + w) y1);
          mkLine (mkPoint (x1 + w) y1) (mkPoint (x1 + w) (y1 + h));
          mkLine (mkPoint (x1 + w) (y1 + h)) (mkPoint x1 (y1 + h));
          mkLine (mkPoint x1 (y1 + h)) (mkPoint x1 y1)]
         [])
      (OutP x1 y1 (x1 + w) (y1 + h))
| accepted_circle (cx cy : num) (gr : G) :
    let cr := fst (size_dist gr) in
    accepted i sheets
      (mkSheet [mkPoint cx cy] [] [mkCircle (mkPoint cx cy) cr])
      (OutK cx cy cr)
| accepted_fold (gk : G) (foldLine : Line num) (geom : SheetGeometry num)
    (out : OutLine num) :
    let k := fst (uniform_int_distribution rnd 1 (i - 1)%Z gk) in
    i <> 1%Z ->
    check_and_commit k (at_index sheets k no_geometry) foldLine
      = Some (geom, out) ->
    accepted i sheets geom out.

(** Every ["Z"] record of the file is backed by a folded sheet. *)
Definition fold_records_ok (i : Z) (sheets : list (SheetGeometry num))
    (file : list (OutLine num)) : Prop :=
  (1 <= i)%Z /\ length sheets = Z.to_nat i /\ length file = Z.to_nat i /\
  forall j k x1 y1 x2 y2,
    nth_error file j = Some (OutZ k x1 y1 x2 y2) ->
    (1 <= k < Z.of_nat j)%Z /\
    exists src new,
      nth_error sheets (Z.to_nat k) = Some src /\
      nth_error sheets j = Some new /\
      folded_from src new (mkLine (mkPoint x1 y1) (mkPoint x2 y2)).

(** No ["Z"] record of the file carries a line that the degeneracy guard
    stops. *)
Definition fold_records_guarded (file : list (OutLine num)) : Prop :=
  forall k x1 y1 x2 y2, In (OutZ k x1 y1 x2 y2) file ->
    (distSq (mkPoint x1 y1) (mkPoint x2 y2) <? ZERO_TOLERANCE) = false.

End Engine.

(** ** The two arithmetics *)

Definition Rltb (a b : R) : bool := if Rlt_dec a b then true else false.

#[export] Instance RArith : Arith R := {|
  of_Z := IZR;
  add := Rplus;
  sub := Rminus;
  mul := Rmult;
  div := Rdiv;
  nsqrt := sqrt;
  nabs := Rabs;
  ltb := Rltb
|}.

#[export] Instance RTrig : Trig R := {|
  ncos := cos;
  nsin := sin;
  M_PI := PI
|}.

Definition float_of_Z (z : Z) : float :=
  match z with
  | Z0 => PrimFloat.of_uint63 (Uint63.of_Z 0)
  | Zpos _ => PrimFloat.of_uint63 (Uint63.of_Z z)
  | Zneg n => PrimFloat.opp (PrimFloat.of_uint63 (Uint63.of_Z (Zpos n)))
  end.

#[export] Instance F64 : Arith float := {|
  of_Z := float_of_Z;
  add := PrimFloat.add;
  sub := PrimFloat.sub;
  mul := PrimFloat.mul;
  div := PrimFloat.div;
  nsqrt := PrimFloat.sqrt;
  nabs := PrimFloat.abs;
  ltb := PrimFloat.ltb
|}.

Local Open Scope R_scope.

(** ** Notions used in the statements over the reals *)

(** A measured distance is acceptable when it is "on" the feature or
    "safe": at most [ZERO_TOLERANCE] or at least [DANGER_EPS]. *)
Definition clear (d : R) : Prop := d <= ZERO_TOLERANCE \/ d >= DANGER_EPS.

(** The squared length [len_sq] that [distPointLine] and [reflectPoint]
    compare with [ZERO_TOLERANCE]. *)
Definition len_sq (l : Line R) : R :=
  (l.(p2).(x) - l.(p1).(x)) * (l.(p2).(x) - l.(p1).(x)) +
  (l.(p2).(y) - l.(p1).(y)) * (l.(p2).(y) - l.(p1).(y)).

(** The scalar projection [param] and the foot [(xx, yy)] both functions
    compute when the line is not degenerate. *)
Definition param (p : Point R) (l : Line R) : R :=
  ((p.(x) - l.(p1).(x)) * (l.(p2).(x) - l.(p1).(x)) +
   (p.(y) - l.(p1).(y)) * (l.(p2).(y) - l.(p1).(y))) / len_sq l.

Definition foot (p : Point R) (l : Line R) : Point R :=
  mkPoint (l.(p1).(x) + param p l * (l.(p2).(x) - l.(p1).(x)))
          (l.(p1).(y) + param p l * (l.(p2).(y) - l.(p1).(y))).

(** [p] lies on the infinite line through the two points of [l]: the
    parameter [t] ranges over all reals, not only over [0, 1]. *)
Definition onLine (p : Point R) (l : Line R) : Prop :=
  exists t : R,
    p.(x) = l.(p1).(x) + t * (l.(p2).(x) - l.(p1).(x)) /\
    p.(y) = l.(p1).(y) + t * (l.(p2).(y) - l.(p1).(y)).

(** What the C++ standard promises of the two distributions: a draw from
    [(a, b)] with [a <= b] lies between [a] and [b]. *)
Record RandomContract (G : Type) (rnd : Random R G) : Prop := {
  int_in_range : IntContract rnd;
  real_in_range : forall a b g, a <= b ->
    a <= fst (uniform_real_distribution rnd a b g) <= b
}.

(** Invariants of the committed sheets. *)
Definition radii_in_range (sheets : list (SheetGeometry R)) : Prop :=
  forall geom c0, In geom sheets -> In c0 geom.(circles) -> 1 <= c0.(r) <= 5.

Definition lines_nondegenerate (sheets : list (SheetGeometry R)) : Prop :=
  forall geom l, In geom sheets -> In l geom.(lines) ->
    ZERO_TOLERANCE <= len_sq l.

(** ** A scripted stream

    A stream that replays a list of prepared draws, for running the engine
    on concrete inputs.  A draw outside the requested range, or a draw
    from the exhausted script, yields the upper bound for integers and the
    lower bound for reals. *)
Inductive Draw : Type :=
| DrawZ (z : Z)
| DrawR (v : R).

Definition script_call (s : list Draw) : Z * list Draw :=
  match s with
  | DrawZ z :: s' => ((z mod 4294967296)%Z, s')
  | _ :: s' => (0%Z, s')
  | [] => (0%Z, [])
  end.

Definition script_int (a b : Z) (s : list Draw) : Z * list Draw :=
  match s with
  | DrawZ z :: s' => (if ((a <=? z) && (z <=? b))%Z%bool then z else b, s')
  | _ :: s' => (b, s')
  | [] => (b, [])
  end.

Definition script_real (a b : R) (s : list Draw) : R * list Draw :=
  match s with
  | DrawR v :: s' =>
      (if Rle_dec a v then if Rle_dec v b then v else a else a, s')
  | _ :: s' => (a, s')
  | [] => (a, [])
  end.

Definition scripted : Random R (list Draw) := {|
  rng_call := script_call;
  uniform_int_distribution := script_int;
  uniform_real_distribution := script_real
|}.

(** ** Concrete inputs *)

(** The horizontal axis, and a point 5e-10 above it. *)
Definition axis_line : Line R := mkLine (mkPoint 0 0) (mkPoint 1 0).

Definition near_axis_point : Point R := mkPoint 0 (1 / 2000000000).

(** A circle sheet, a fold line through its centre and one 0.02 away. *)
Definition circle_sheet : SheetGeometry R :=
  mkSheet [mkPoint 0 0] [] [mkCircle (mkPoint 0 0) 2].

Definition through_centre : Line R := mkLine (mkPoint 0 (-1)) (mkPoint 0 1).

Definition near_centre : Line R := mkLine (mkPoint (2 / 100) 0) (mkPoint (2 / 100) 1).

(** [circle_sheet] folded across [through_centre]. *)
Definition folded_circle_sheet : SheetGeometry R :=
  mkSheet
    (circle_sheet.(points) ++
       map (fun p => reflectPoint p through_centre) circle_sheet.(points))
    ((circle_sheet.(lines) ++
       map (fun l => mkLine (reflectPoint l.(p1) through_centre)
                            (reflectPoint l.(p2) through_centre))
           circle_sheet.(lines))
       ++ [through_centre])
    (circle_sheet.(circles) ++
       map (fun c0 => mkCircle (reflectPoint c0.(c) through_centre) c0.(r))
           circle_sheet.(circles)).

(** Draws that make sheet 1 the circle above and sheet 2 its fold. *)
Definition fold_script : list Draw :=
  [DrawZ 1; DrawR 0; DrawR 0; DrawR 2;
   DrawZ 2; DrawZ 1; DrawZ 0; DrawR 0; DrawR (-1); DrawR 0; DrawR 1].

(** The rectangle the exhausted script draws:
    origin [(-10, -10)], width and height 1. *)
Definition corner_sheet : SheetGeometry R :=
  mkSheet
    [mkPoint (-10) (-10); mkPoint (-10 + 1) (-10);
     mkPoint (-10 + 1) (-10 + 1); mkPoint (-10) (-10 + 1)]
    [mkLine (mkPoint (-10) (-10)) (mkPoint (-10 + 1) (-10));
     mkLine (mkPoint (-10 + 1) (-10)) (mkPoint (-10 + 1) (-10 + 1));
     mkLine (mkPoint (-10 + 1) (-10 + 1)) (mkPoint (-10) (-10 + 1));
     mkLine (mkPoint (-10) (-10 + 1)) (mkPoint (-10) (-10))]
    [].

(** The same inputs as doubles. *)
Definition f64 (a b : Z) : float := PrimFloat.div (float_of_Z a) (float_of_Z b).

Definition circle_sheet_f64 : SheetGeometry float :=
  mkSheet [mkPoint (f64 0 1) (f64 0 1)] []
          [mkCircle (mkPoint (f64 0 1) (f64 0 1)) (f64 2 1)].

Definition through_centre_f64 : Line float :=
  mkLine (mkPoint (f64 0 1) (f64 (-1) 1)) (mkPoint (f64 0 1) (f64 1 1)).

Definition near_centre_f64 : Line float :=
  mkLine (mkPoint (f64 2 100) (f64 0 1)) (mkPoint (f64 2 100) (f64 1 1)).

Definition axis_line_f64 : Line float :=
  mkLine (mkPoint (f64 0 1) (f64 0 1)) (mkPoint (f64 1 1) (f64 0 1)).

Definition near_axis_point_f64 : Point float :=
  mkPoint (f64 0 1) (f64 1 2000000000).

(** The rectangle sheet with corners (0, 0) and (1, 1). *)
Definition unit_box_f64 : SheetGeometry float :=
  let x1 := f64 0 1 in let y1 := f64 0 1 in
  let x2 := f64 1 1 in let y2 := f64 1 1 in
  mkSheet
    [mkPoint x1 y1; mkPoint x2 y1; mkPoint x2 y2; mkPoint x1 y2]
    [mkLine (mkPoint x1 y1) (mkPoint x2 y1);
     mkLine (mkPoint x2 y1) (mkPoint x2 y2);
     mkLine (mkPoint x2 y2) (mkPoint x1 y2);
     mkLine (mkPoint x1 y2) (mkPoint x1 y1)]
    [].

Definition slanted_line_f64 : Line float :=
  mkLine (mkPoint (f64 0 1) (f64 0 1)) (mkPoint (f64 1 1) (f64 3 1)).

Definition tenths_point_f64 : Point float := mkPoint (f64 1 10) (f64 2 10).

(** ** Notions used in the further statements *)

(** The kinds of records. *)
Definition is_fresh_record {num : Type} (o : OutLine num) : bool :=
  match o with
  | OutP _ _ _ _ | OutK _ _ _ => true
  | _ => false
  end.

Definition is_sheet_record {num : Type} (o : OutLine num) : bool :=
  match o with
  | OutP _ _ _ _ | OutK _ _ _ | OutZ _ _ _ _ _ => true
  | _ => false
  end.

Definition is_query_record {num : Type} (o : OutLine num) : bool :=
  match o with
  | OutQ _ _ _ => true
  | _ => false
  end.

(** The shape of the sheets the engine builds: a power of two of points
    (so at least one), and circles, if any, centred at the points, in the
    same order. *)
Definition sheet_well_formed {num : Type} (s : SheetGeometry num) : Prop :=
  (exists m : nat, length s.(points) = (2 ^ m)%nat) /\
  (s.(circles) = [] \/ map (@c num) s.(circles) = s.(points)).

Definition sheets_well_formed {num : Type} (i : Z)
    (sheets : list (SheetGeometry num)) : Prop :=
  (1 <= i)%Z /\ length sheets = Z.to_nat i /\
  forall j s, (1 <= j)%nat -> nth_error sheets j = Some s -> sheet_well_formed s.

(** Every ["Z"] record names a source sheet for which [isSafeFold]
    accepted its line. *)
Definition fold_records_safe {num : Type} {A : Arith num}
    (sheets : list (SheetGeometry num)) (file : list (OutLine num)) : Prop :=
  forall j k x1 y1 x2 y2,
    nth_error file j = Some (OutZ k x1 y1 x2 y2) ->
    exists src,
      nth_error sheets (Z.to_nat k) = Some src /\
      isSafeFold (mkLine (mkPoint x1 y1) (mkPoint x2 y2)) src = true.

(** What the per-query loop writes: the drawn sheet index and a point
    that [isSafePoint] accepted for that sheet. *)
Definition query_accepted {num : Type} {A : Arith num} {G : Type}
    (rnd : Random num G) (n : Z) (sheets : list (SheetGeometry num))
    (o : OutLine num) : Prop :=
  exists (g : G) (p : Point num),
    let k := fst (uniform_int_distribution rnd 1 n g) in
    o = OutQ k p.(x) p.(y) /\
    isSafePoint p (at_index sheets k (mkSheet [] [] [])) = true.

(** ** The callers: one file per test, and [main] *)

(** [std::to_string(int)] *)
Definition to_string (i : Z) : string :=
  NilEmpty.string_of_int (Z.to_int i).

(** The files of the output directories: the content of each path that
    holds a file. *)
Definition Files (num : Type) : Type := string -> option (list (OutLine num)).

Definition write_file {num : Type} (path : string) (content : list (OutLine num))
    (fs : Files num) : Files num :=
  fun p => if String.eqb p path then Some content else fs p.

(** The path [group + "/" + std::to_string(index) + ".in"]. *)
Definition file_path (group : string) (index : Z) : string :=
  (((group ++ "/") ++ to_string index) ++ ".in")%string.

Section Callers.

Context {num : Type} {A : Arith num} {T : Trig num}.
Context {G : Type} (rnd : Random num G).

(** Whether [std::ofstream file(path)] opens: a fact of the environment
    (the directory exists and is writable). *)
Variable openable : string -> bool.

(** [generate_test] seen from its caller: the stream opened on [path]
    truncates the file, and what [generate_test] writes is its content
    when the stream is closed; a path that does not open is left alone. *)
Definition generate_test_on (path : string) (n q : Z) (fs : Files num)
  : Gen G (bool * Files num) :=
  res <- generate_test rnd (openable path) n q ;;
  ret (fst res,
       if openable path then write_file path (snd res) fs else fs).

(** [bool generate_test_with_group_index(std::string group, int index,
    std::mt19937& rng, int n, int q)] *)
Definition generate_test_with_group_index (group : string) (index : Z) (n q : Z)
    (fs : Files num) : Gen G (bool * Files num) :=
  generate_test_on (file_path group index) n q fs.

(** A loop of [main]:
    [for (int i = 0; i < count;) { if (generate_test_with_group_index(group,
    i, rng, n, q)) i++; }].  The loop ends only when [count] calls have
    succeeded; [fuel] bounds the number of calls, and [None] means the
    bound was reached first. *)
Fixpoint fill_group (fuel : nat) (group : string) (count n q : Z) (i : Z)
    (fs : Files num) : Gen G (option (Files num)) :=
  if (i <? count)%Z then
    match fuel with
    | O => ret None
    | S fuel' =>
        res <- generate_test_with_group_index group i n q fs ;;
        fill_group fuel' group count n q
                   (if fst res then (i + 1)%Z else i) (snd res)
    end
  else ret (Some fs).

(** [int main()], from the stream [std::mt19937 rng{}]. *)
Definition main (fuel : nat) (fs : Files num) : Gen G (option (Files num)) :=
  tiny <- fill_group fuel "wojtekmal_tiny" 10000 3 3 0 fs ;;
  match tiny with
  | None => ret None
  | Some fs1 => fill_group fuel "wojtekmal_small" 10000 10 100 0 fs1
  end.

(** The content of a file that a successful call of [generate_test]
    leaves behind. *)
Definition complete_file (n q : Z) (content : list (OutLine num)) : Prop :=
  exists g g' : G, generate_test rnd true n q g = ((true, content), g').

End Callers.

(** The ranges of the numbers of a ["P"] or ["K"] record: the first
    corner or the centre in the square of [coord_dist], the sides or the
    radius in the range of [size_dist]. *)
Definition record_in_range (o : OutLine R) : Prop :=
  match o with
  | OutP x1 y1 x2 y2 =>
      -10 <= x1 <= 10 /\ -10 <= y1 <= 10 /\
      1 <= x2 - x1 <= 5 /\ 1 <= y2 - y1 <= 5
  | OutK cx cy cr =>
      -10 <= cx <= 10 /\ -10 <= cy <= 10 /\ 1 <= cr <= 5
  | _ => True
  end.

(** The stream whose every draw is the lower bound of its range, and an
    environment in which every path opens, for running the callers. *)
Definition lowest : Random R unit := {|
  rng_call := fun g => (0%Z, g);
  uniform_int_distribution := fun a _ g => (a, g);
  uniform_real_distribution := fun a _ g => (a, g)
|}.

Definition all_open : string -> bool := fun _ => true.

Definition none_open : string -> bool := fun _ => false.

(** Draws that make sheet 1 the circle of radius 2 around the origin and
    the one query its centre, taken as an existing point. *)
Definition query_script : list Draw :=
  [DrawZ 1; DrawR 0; DrawR 0; DrawR 2; DrawZ 1; DrawZ 1; DrawZ 0].

(** The line through (0, 0) and (3, 4), of length 5. *)
Definition slanted_line : Line R := mkLine (mkPoint 0 0) (mkPoint 3 4).

Definition no_files : Files R := fun _ => None.

(** ** The two branches of the geometry, and the committed geometry *)

Section Branches.

Context {num : Type} {A : Arith num}.
Local Open Scope num_scope.

(** The test [len_sq < ZERO_TOLERANCE] with which [distPointLine] and
    [reflectPoint] choose their degenerate-line fallback. *)
Definition degenerate (l : Line num) : bool :=
  let C := l.(p2).(x) - l.(p1).(x) in
  let D := l.(p2).(y) - l.(p1).(y) in
  let len_sq := C * C + D * D in
  len_sq <? ZERO_TOLERANCE.

(** The point [(xx, yy)] both functions compute past that test. *)
Definition projection (p : Point num) (l : Line num) : Point num :=
  let A := p.(x) - l.(p1).(x) in
  let B := p.(y) - l.(p1).(y) in
  let C := l.(p2).(x) - l.(p1).(x) in
  let D := l.(p2).(y) - l.(p1).(y) in
  let dot := A * C + B * D in
  let len_sq := C * C + D * D in
  let param := dot / len_sq in
  mkPoint (l.(p1).(x) + param * C) (l.(p1).(y) + param * D).

(** The geometry [newGeom] that a committed fold of [src] across
    [foldLine] pushes to [sheets]. *)
Definition fold_of (src : SheetGeometry num) (foldLine : Line num)
  : SheetGeometry num :=
  mkSheet
    (src.(points) ++ map (fun p => reflectPoint p foldLine) src.(points))
    ((src.(lines) ++
        map (fun l => mkLine (reflectPoint l.(p1) foldLine)
                             (reflectPoint l.(p2) foldLine)) src.(lines))
       ++ [foldLine])
    (src.(circles) ++
       map (fun c0 => mkCircle (reflectPoint c0.(c) foldLine) c0.(r))
           src.(circles)).

End Branches.

(** Two doubles with the same square: equal, or opposite. *)
Definition same_square (u v : spec_float) : Prop := v = u \/ v = SFopp u.

(** ** A scripted stream of doubles

    The scripted stream again, replaying doubles. *)
Inductive Draw64 : Type :=
| Draw64Z (z : Z)
| Draw64F (v : float).

Definition script64_call (s : list Draw64) : Z * list Draw64 :=
  match s with
  | Draw64Z z :: s' => ((z mod 4294967296)%Z, s')
  | _ :: s' => (0%Z, s')
  | [] => (0%Z, [])
  end.

Definition script64_int (a b : Z) (s : list Draw64) : Z * list Draw64 :=
  match s with
  | Draw64Z z :: s' => (if ((a <=? z) && (z <=? b))%Z%bool then z else b, s')
  | _ :: s' => (b, s')
  | [] => (b, [])
  end.

Definition script64_real (a b : float) (s : list Draw64) : float * list Draw64 :=
  match s with
  | Draw64F v :: s' =>
      (if (PrimFloat.leb a v && PrimFloat.leb v b)%bool then v else a, s')
  | _ :: s' => (a, s')
  | [] => (a, [])
  end.

Definition scripted_f64 : Random float (list Draw64) := {|
  rng_call := script64_call;
  uniform_int_distribution := script64_int;
  uniform_real_distribution := script64_real
|}.

(** ** Concrete inputs on which rounding decides *)

(** The point (0.1, 0.1) of the diagonal through (0, 0) and (3, 3), and
    the point (2^-600, 0.5) beside the vertical axis. *)
Definition diagonal_f64 : Line float :=
  mkLine (mkPoint (f64 0 1) (f64 0 1)) (mkPoint (f64 3 1) (f64 3 1)).

Definition on_diagonal_f64 : Point float := mkPoint (f64 1 10) (f64 1 10).

Definition vertical_f64 : Line float :=
  mkLine (mkPoint (f64 0 1) (f64 0 1)) (mkPoint (f64 0 1) (f64 1 1)).

Definition off_vertical_f64 : Point float := mkPoint 0x1p-600%float (f64 1 2).

(** A crease from the origin whose squared length is the double
    [ZERO_TOLERANCE] itself, a second crease through (2, 3), the circle
    sheet folded across the first and then across the second, and the
    mirror image of the first crease that the second fold stores. *)
Definition knife_edge_f64 : float := nsqrt (ZERO_TOLERANCE (A := F64)).

Definition short_crease_f64 : Line float :=
  mkLine (mkPoint (f64 0 1) (f64 0 1)) (mkPoint knife_edge_f64 (f64 0 1)).

Definition slanted_crease_f64 : Line float :=
  mkLine (mkPoint (f64 0 1) (f64 0 1)) (mkPoint (f64 2 1) (f64 3 1)).

Definition once_folded_f64 : SheetGeometry float :=
  fold_of circle_sheet_f64 short_crease_f64.

Definition twice_folded_f64 : SheetGeometry float :=
  fold_of once_folded_f64 slanted_crease_f64.

Definition mirrored_crease_f64 : Line float :=
  mkLine (reflectPoint short_crease_f64.(p1) slanted_crease_f64)
         (reflectPoint short_crease_f64.(p2) slanted_crease_f64).

(** A point 5 along the mirrored crease and 0.02 beside it. *)
Definition probe_f64 : Point float := mkPoint (f64 (-2476) 1300) (f64 6010 1300).

(** Draws that make sheet 1 the circle, sheets 2 and 3 the two folds, and
    the one query the point above, asked of sheet 3. *)
Definition knife_edge_script : list Draw64 :=
  [Draw64Z 1; Draw64F (f64 0 1); Draw64F (f64 0 1); Draw64F (f64 2 1);
   Draw64Z 2; Draw64Z 1; Draw64Z 0;
   Draw64F (f64 0 1); Draw64F (f64 0 1); Draw64F knife_edge_f64; Draw64F (f64 0 1);
   Draw64Z 2; Draw64Z 2; Draw64Z 0;
   Draw64F (f64 0 1); Draw64F (f64 0 1); Draw64F (f64 2 1); Draw64F (f64 3 1);
   Draw64Z 3; Draw64Z 0; Draw64F (f64 (-2476) 1300); Draw64F (f64 6010 1300)].

(** ** Concrete inputs for folds through the centre of a circle *)

(** A circle of radius 0.01 around the origin. *)
Definition small_circle_sheet : SheetGeometry R :=
  mkSheet [mkPoint 0 0] [] [mkCircle (mkPoint 0 0) (1 / 100)].

Definition small_circle_sheet_f64 : SheetGeometry float :=
  mkSheet [mkPoint (f64 0 1) (f64 0 1)] []
          [mkCircle (mkPoint (f64 0 1) (f64 0 1)) (f64 1 100)].

(** The circle sheet folded across the vertical line 0.0505 to the right
    of its centre, which puts the mirrored centre at (0.101, 0); and the
    line through (0, 0) and (99, 20), of length 101, which passes 0.02
    from that mirrored centre. *)
Definition offset_crease : Line R :=
  mkLine (mkPoint (505 / 10000) 0) (mkPoint (505 / 10000) 1).

Definition mirrored_circle_sheet : SheetGeometry R :=
  fold_of circle_sheet offset_crease.

Definition shallow_line : Line R := mkLine (mkPoint 0 0) (mkPoint 99 20).

(** * Properties that hold in every arithmetic *)

Lemma existsb_false_forall (T : Type) (f : T -> bool) (l : list T) :
  existsb f l = false <-> forall a, In a l -> f a = false.
Proof.
  induction l as [|a l IH]; simpl.
  - split; [intros _ a [] | reflexivity].
  - rewrite orb_false_iff, IH. split.
    + intros [Ha Hl] b [<-|Hb]; auto.
    + intros H. split; [apply H; now left | intros b Hb; apply H; now right].
Qed.

Section Oracle.

Context {num : Type} {A : Arith num}.

(** The loops of the oracle, read as quantifiers over the features. *)
Lemma isSafePoint_in_band (p : Point num) (g : SheetGeometry num) :
  isSafePoint p g = true <->
    (forall pt, In pt g.(points) -> in_band (dist p pt) = false) /\
    (forall l, In l g.(lines) -> in_band (distPointLine p l) = false) /\
    (forall c0, In c0 g.(circles) ->
       in_band (nabs (sub (dist p c0.(c)) c0.(r))) = false).
Proof.
  unfold isSafePoint, in_band.
  destruct (existsb _ (points g)) eqn:Ep.
  { split; [discriminate|]. intros (Hp & _ & _). exfalso.
    apply existsb_exists in Ep. destruct Ep as (pt & Hin & Hb).
    cbv beta zeta in Hb. rewrite (Hp pt Hin) in Hb. discriminate. }
  destruct (existsb _ (lines g)) eqn:El.
  { split; [discriminate|]. intros (_ & Hl & _). exfalso.
    apply existsb_exists in El. destruct El as (l & Hin & Hb).
    cbv beta zeta in Hb. rewrite (Hl l Hin) in Hb. discriminate. }
  destruct (existsb _ (circles g)) eqn:Ec.
  { split; [discriminate|]. intros (_ & _ & Hc). exfalso.
    apply existsb_exists in Ec. destruct Ec as (c0 & Hin & Hb).
    cbv beta zeta in Hb. rewrite (Hc c0 Hin) in Hb. discriminate. }
  split; [intros _|reflexivity].
  rewrite existsb_false_forall in Ep, El, Ec.
  repeat split; intros a Hin;
    [apply (Ep a Hin) | apply (El a Hin) | apply (Ec a Hin)].
Qed.

Lemma isSafeFold_in_band (l : Line num) (g : SheetGeometry num) :
  isSafeFold l g = true <->
    (forall pt, In pt g.(points) -> in_band (distPointLine pt l) = false) /\
    (forall c0, In c0 g.(circles) ->
       in_band (distPointLine c0.(c) l) = false /\
       in_band (nabs (sub (distPointLine c0.(c) l) c0.(r))) = false).
Proof.
  unfold isSafeFold, in_band.
  destruct (existsb _ (points g)) eqn:Ep.
  { split; [discriminate|]. intros (Hp & _). exfalso.
    apply existsb_exists in Ep. destruct Ep as (pt & Hin & Hb).
    cbv beta zeta in Hb. rewrite (Hp pt Hin) in Hb. discriminate. }
  destruct (existsb _ (circles g)) eqn:Ec.
  { split; [discriminate|]. intros (_ & Hc). exfalso.
    apply existsb_exists in Ec. destruct Ec as (c0 & Hin & Hb).
    cbv beta zeta in Hb. destruct (Hc c0 Hin) as [H1 H2].
    rewrite H1, H2 in Hb. discriminate. }
  split; [intros _|reflexivity].
  rewrite existsb_false_forall in Ep, Ec.
  split; intros a Hin.
  - apply (Ep a Hin).
  - specialize (Ec a Hin). cbv beta zeta in Ec.
    destruct (ltb ZERO_TOLERANCE (distPointLine (c a) l) &&
              ltb (distPointLine (c a) l) DANGER_EPS)%bool;
      [discriminate|]. split; [reflexivity|exact Ec].
Qed.

End Oracle.

(** ** The retry loop *)

Ltac run_bind :=
  unfold bind, ret in *; cbn beta iota in *.

Lemma retry_none (G T : Type) (body : Gen G (option T)) (rem tc : nat) (g g' : G)
    (tc' : nat) :
  retry body rem tc g = ((None, tc'), g') ->
  tc' = (tc + rem)%nat /\
  g' = after_attempts body rem g /\
  forall j, (j < rem)%nat -> fst (body (after_attempts body j g)) = None.
Proof.
  revert tc g. induction rem as [|rem IH]; intros tc g H; simpl in H.
  - run_bind. inversion H; subst. repeat split; [lia | intros j Hj; lia].
  - run_bind. destruct (body g) as [[v|] g1] eqn:E.
    + discriminate.
    + apply IH in H. destruct H as (-> & -> & Hall).
      simpl. rewrite E. simpl. repeat split; [lia|].
      intros [|j] Hj; simpl.
      * now rewrite E.
      * rewrite E. simpl. apply Hall. lia.
Qed.

Lemma retry_all_fail (G T : Type) (body : Gen G (option T)) (rem tc : nat) (g : G) :
  (forall j, (j < rem)%nat -> fst (body (after_attempts body j g)) = None) ->
  retry body rem tc g = ((None, (tc + rem)%nat), after_attempts body rem g).
Proof.
  revert tc g. induction rem as [|rem IH]; intros tc g H; simpl.
  - run_bind. now rewrite Nat.add_0_r.
  - run_bind. pose proof (H O ltac:(lia)) as H0. simpl in H0.
    destruct (body g) as [[v|] g1] eqn:E; [discriminate|].
    simpl. rewrite IH.
    + now rewrite Nat.add_succ_r.
    + intros j Hj. specialize (H (S j) ltac:(lia)). simpl in H.
      now rewrite E in H.
Qed.

Lemma retry_some (G T : Type) (body : Gen G (option T)) (rem tc : nat) (g g' : G)
    (v : T) (tc' : nat) :
  retry body rem tc g = ((Some v, tc'), g') ->
  exists j, (j < rem)%nat /\ tc' = (tc + j)%nat /\
    body (after_attempts body j g) = (Some v, g') /\
    forall j', (j' < j)%nat -> fst (body (after_attempts body j' g)) = None.
Proof.
  revert tc g. induction rem as [|rem IH]; intros tc g H; simpl in H.
  - run_bind. discriminate.
  - run_bind. destruct (body g) as [[w|] g1] eqn:E.
    + inversion H; subst. exists O. simpl. repeat split; [lia|lia|exact E|].
      intros j' Hj'. lia.
    + apply IH in H. destruct H as (j & Hj & -> & Hb & Hall).
      exists (S j). simpl. rewrite E. simpl. repeat split; [lia|lia|exact Hb|].
      intros [|j'] Hj'; simpl; [now rewrite E|].
      rewrite E. simpl. apply Hall. lia.
Qed.

(** A failing pass hands the next pass the rest of the same budget. *)
Lemma retry_continue (G T : Type) (body : Gen G (option T)) (rem tc : nat) (g : G) :
  fst (body g) = None ->
  retry body (S rem) tc g = retry body rem (S tc) (snd (body g)).
Proof.
  intros H. simpl. run_bind. destruct (body g) as [[v|] g1]; [discriminate|reflexivity].
Qed.

Lemma retry_first (G T : Type) (body : Gen G (option T)) (rem tc : nat) (g g' : G)
    (v : T) :
  body g = (Some v, g') -> retry body (S rem) tc g = ((Some v, tc), g').
Proof. intros H. cbn [retry]. unfold bind. rewrite H. reflexivity. Qed.

Lemma after_attempts_fixed (G T : Type) (body : Gen G (option T)) (j : nat) (g : G) :
  snd (body g) = g -> after_attempts body j g = g.
Proof. intros H. induction j as [|j IH]; simpl; [reflexivity|]. now rewrite H. Qed.

Lemma retry_stuck (G T : Type) (body : Gen G (option T)) (rem : nat) (g : G) :
  body g = (None, g) -> retry body rem 0 g = ((None, rem), g).
Proof.
  intros H. rewrite retry_all_fail.
  - rewrite after_attempts_fixed by now rewrite H. reflexivity.
  - intros j _. rewrite after_attempts_fixed by now rewrite H. now rewrite H.
Qed.

Lemma nth_error_snoc_old (T : Type) (v : list T) (a : T) (j : nat) :
  (j < length v)%nat -> nth_error (v ++ [a]) j = nth_error v j.
Proof. intros H. now apply nth_error_app1. Qed.

Lemma nth_error_snoc_new (T : Type) (v : list T) (a : T) :
  nth_error (v ++ [a]) (length v) = Some a.
Proof. rewrite nth_error_app2, Nat.sub_diag by lia. reflexivity. Qed.

Lemma nth_error_snoc_inv (T : Type) (v : list T) (a b : T) (j : nat) :
  nth_error (v ++ [a]) j = Some b ->
  ((j < length v)%nat /\ nth_error v j = Some b) \/ (j = length v /\ a = b).
Proof.
  intros H. destruct (Nat.lt_ge_cases j (length v)) as [Hlt|Hge].
  - left. split; [exact Hlt|]. now rewrite nth_error_app1 in H.
  - right. rewrite nth_error_app2 in H by exact Hge.
    destruct (j - length v)%nat as [|m] eqn:E; simpl in H.
    + inversion H. split; [lia|reflexivity].
    + destruct m; discriminate.
Qed.

(** ** One pass of the per-sheet loop *)

Section EngineFacts.

Context {num : Type} {A : Arith num} {T : Trig num}.
Context {G : Type} (rnd : Random num G).

Lemma check_and_commit_some (k : Z) (baseGeom : SheetGeometry num)
    (foldLine : Line num) (geom : SheetGeometry num) (out : OutLine num) :
  check_and_commit k baseGeom foldLine = Some (geom, out) ->
  ltb (distSq foldLine.(p1) foldLine.(p2)) ZERO_TOLERANCE = false /\
  isSafeFold foldLine baseGeom = true /\
  folded_from baseGeom geom foldLine /\
  out = OutZ k foldLine.(p1).(x) foldLine.(p1).(y)
               foldLine.(p2).(x) foldLine.(p2).(y).
Proof.
  unfold check_and_commit.
  destruct (ltb _ ZERO_TOLERANCE) eqn:E; [discriminate|].
  destruct (isSafeFold foldLine baseGeom) eqn:S; [|discriminate].
  cbn [negb]. intros H. inversion H; subst; clear H.
  repeat split; auto.
Qed.

Lemma check_and_commit_degenerate (k : Z) (baseGeom : SheetGeometry num)
    (foldLine : Line num) :
  ltb (distSq foldLine.(p1) foldLine.(p2)) ZERO_TOLERANCE = true ->
  check_and_commit k baseGeom foldLine = None.
Proof. intros H. unfold check_and_commit. now rewrite H. Qed.

Lemma sheet_attempt_accepted (i : Z) (sheets : list (SheetGeometry num)) (g g' : G)
    (geom : SheetGeometry num) (out : OutLine num) :
  sheet_attempt rnd i sheets g = (Some (geom, out), g') ->
  accepted rnd i sheets geom out.
Proof.
  unfold sheet_attempt. run_bind.
  set (draw := if (i =? 1)%Z then _ else _).
  destruct (draw g) as [type0 g0] eqn:Ed.
  assert (Hi : i = 1%Z -> (type0 = 0 \/ type0 = 1)%Z).
  { intros ->. subst draw. cbn in Ed.
    destruct (rng_call rnd g) as [v gv]. inversion Ed; subst.
    pose proof (Z.mod_pos_bound v 2 ltac:(lia)). lia. }
  clear Ed draw.
  destruct ((type0 =? 2)%Z && (i =? 1)%Z)%bool eqn:E2.
  { apply andb_true_iff in E2. destruct E2 as [Ea Eb].
    apply Z.eqb_eq in Ea, Eb. specialize (Hi Eb). lia. }
  destruct (type0 =? 0)%Z eqn:E0.
  { destruct (coord_dist rnd g0) as [x1 g1].
    destruct (coord_dist rnd g1) as [y1 g2].
    destruct (size_dist rnd g2) as [w g3] eqn:Ew.
    destruct (size_dist rnd g3) as [h g4] eqn:Eh.
    intros H. inversion H; subst; clear H.
    replace w with (fst (size_dist rnd g2)) by now rewrite Ew.
    replace h with (fst (size_dist rnd g3)) by now rewrite Eh.
    apply accepted_rectangle. }
  destruct (type0 =? 1)%Z eqn:E1.
  { destruct (coord_dist rnd g0) as [cx g1].
    destruct (coord_dist rnd g1) as [cy g2].
    destruct (size_dist rnd g2) as [cr g3] eqn:Er.
    intros H. inversion H; subst; clear H.
    replace cr with (fst (size_dist rnd g2)) by now rewrite Er.
    apply accepted_circle. }
  apply Z.eqb_neq in E0, E1.
  destruct (uniform_int_distribution rnd 1 (i - 1) g0) as [k g1] eqn:Ek.
  destruct (uniform_int_distribution rnd 0 2 g1) as [strategy g2].
  destruct (choose_fold_line rnd strategy _ g2) as [foldLine g3].
  intros H. inversion H as [Hc]; subst; clear H.
  replace k with (fst (uniform_int_distribution rnd 1 (i - 1) g0)) in *
    by now rewrite Ek.
  eapply accepted_fold; [|exact Hc].
  intros ->. specialize (Hi eq_refl). lia.
Qed.

(** ** Invariants of the sheets loop *)

Section Invariant.

Variable P : Z -> list (SheetGeometry num) -> list (OutLine num) -> Prop.

Hypothesis P_step : forall i sheets file geom out,
  P i sheets file -> accepted rnd i sheets geom out ->
  P (i + 1)%Z (sheets ++ [geom]) (file ++ [out]).

Lemma sheets_loop_invariant (count : nat) :
  forall i sheets file g ok sheets' file' g',
  sheets_loop rnd count i sheets file g = ((ok, sheets', file'), g') ->
  P i sheets file ->
  exists done : nat, (done <= count)%nat /\
    P (i + Z.of_nat done)%Z sheets' file' /\
    (ok = true -> done = count).
Proof.
  induction count as [|count IH]; intros i sheets file g ok sheets' file' g' H HP.
  - cbn [sheets_loop] in H. unfold ret in H. inversion H; subst. exists O.
    rewrite Z.add_0_r. auto.
  - cbn [sheets_loop] in H. unfold bind in H.
    destruct (retry (sheet_attempt rnd i sheets) MAX_TRIES 0 g)
      as [[[[geom out]|] tc] g1] eqn:E; cbn [fst] in H.
    + apply retry_some in E. destruct E as (j & _ & _ & Hb & _).
      apply sheet_attempt_accepted in Hb.
      eapply IH in H; [|eapply P_step; eauto].
      destruct H as (done & Hd & HP' & Hok).
      exists (S done). split; [lia|]. split.
      * replace (i + Z.of_nat (S done))%Z with (i + 1 + Z.of_nat done)%Z by lia.
        exact HP'.
      * intros He. f_equal. auto.
    + unfold ret in H. inversion H; subst. exists O.
      rewrite Z.add_0_r. split; [lia|]. split; [exact HP|discriminate].
Qed.

End Invariant.

(** *** Every ["Z"] record is backed by a folded sheet *)

Lemma fold_records_step (i : Z) (sheets : list (SheetGeometry num))
    (file : list (OutLine num)) (geom : SheetGeometry num) (out : OutLine num) :
  IntContract rnd ->
  fold_records_ok i sheets file -> accepted rnd i sheets geom out ->
  fold_records_ok (i + 1) (sheets ++ [geom]) (file ++ [out]).
Proof.
  intros HC (Hi & Hls & Hlf & Hrec) Hacc.
  split; [lia|]. split; [rewrite length_app; simpl; lia|].
  split; [rewrite length_app; simpl; lia|].
  intros j k x1 y1 x2 y2 Hj.
  apply nth_error_snoc_inv in Hj. destruct Hj as [[Hlt Hj]|[-> ->]].
  - destruct (Hrec _ _ _ _ _ _ Hj) as (Hk & src & new & Hsrc & Hnew & Hff).
    split; [exact Hk|]. exists src, new.
    rewrite !nth_error_snoc_old; [auto|lia|lia].
  - inversion Hacc as [? ? ? ? ? ? Hg Ho|? ? ? ? Hg Ho|gk foldLine geom' out' k' Hne Hcc Hg Ho];
      try discriminate.
    subst. apply check_and_commit_some in Hcc.
    destruct Hcc as (_ & _ & Hff & Ho). inversion Ho; subst; clear Ho.
    assert (Hk : (1 <= k' <= i - 1)%Z) by (apply HC; lia).
    split; [lia|].
    exists (at_index sheets k' no_geometry), geom.
    split; [|split].
    + rewrite nth_error_snoc_old by lia.
      unfold at_index. apply nth_error_nth'. lia.
    + rewrite Hlf, <- Hls. apply nth_error_snoc_new.
    + destruct foldLine as [[ax ay] [bx by_]]. exact Hff.
Qed.

Lemma folded_from_sizes (src new : SheetGeometry num) (foldLine : Line num) :
  folded_from src new foldLine ->
  length new.(points) = (2 * length src.(points))%nat /\
  length new.(lines) = (2 * length src.(lines) + 1)%nat /\
  length new.(circles) = (2 * length src.(circles))%nat.
Proof.
  intros (Hp & Hl & Hc). rewrite Hp, Hl, Hc.
  rewrite !length_app, !length_map. simpl. lia.
Qed.

(** *** No ["Z"] record carries a line stopped by the degeneracy guard *)

Lemma fold_records_guarded_step (i : Z) (sheets : list (SheetGeometry num))
    (file : list (OutLine num)) (geom : SheetGeometry num) (out : OutLine num) :
  fold_records_guarded file -> accepted rnd i sheets geom out ->
  fold_records_guarded (file ++ [out]).
Proof.
  intros Hf Hacc k x1 y1 x2 y2 Hin.
  apply in_app_or in Hin. destruct Hin as [Hin|[Hin|[]]]; [eauto|].
  destruct Hacc as [a1 b1 gw gh w h|cx cy gr cr|gk foldLine geom out k' Hi Hcc];
    try discriminate.
  apply check_and_commit_some in Hcc. destruct Hcc as (Hnd & _ & _ & ->).
  inversion Hin; subst.
  destruct foldLine as [[ax ay] [bx by_]]. exact Hnd.
Qed.

Lemma sheets_phase_guarded (n q : Z) (g g' : G) (ok : bool)
    (sheets : list (SheetGeometry num)) (file : list (OutLine num)) :
  sheets_phase rnd n q g = ((ok, sheets, file), g') ->
  fold_records_guarded file.
Proof.
  intros H. unfold sheets_phase in H.
  eapply sheets_loop_invariant
    with (P := fun _ _ file => fold_records_guarded file) in H.
  - destruct H as (done & _ & HP & _). exact HP.
  - intros i sh fl geom out Hinv Hacc. eapply fold_records_guarded_step; eauto.
  - intros k x1 y1 x2 y2 [Hin|[]]. discriminate.
Qed.

(** ** Retry exhaustion *)

Lemma sheets_loop_prefix (count : nat) :
  forall i sheets file g ok sheets' file' g',
  sheets_loop rnd count i sheets file g = ((ok, sheets', file'), g') ->
  exists recs, file' = file ++ recs /\ (ok = true -> length recs = count).
Proof.
  induction count as [|count IH]; intros i sheets file g ok sheets' file' g' H;
    cbn [sheets_loop] in H.
  - unfold ret in H. inversion H; subst. exists []. now rewrite app_nil_r.
  - unfold bind in H.
    destruct (retry (sheet_attempt rnd i sheets) MAX_TRIES 0 g)
      as [[[[geom out]|] tc] g1]; cbn [fst] in H.
    + apply IH in H. destruct H as (recs & -> & Hlen).
      exists (out :: recs). rewrite <- app_assoc. split; [reflexivity|].
      intros Hok. simpl. f_equal. auto.
    + unfold ret in H. inversion H; subst. exists [].
      rewrite app_nil_r. split; [reflexivity|discriminate].
Qed.

Lemma sheets_loop_exhaust (done more : nat) :
  forall i sheets file g sheets' file' g0 tc g1,
  sheets_loop rnd done i sheets file g = ((true, sheets', file'), g0) ->
  retry (sheet_attempt rnd (i + Z.of_nat done) sheets') MAX_TRIES 0 g0
    = ((None, tc), g1) ->
  sheets_loop rnd (done + S more) i sheets file g = ((false, sheets', file'), g1).
Proof.
  induction done as [|done IH]; intros i sheets file g sheets' file' g0 tc g1 H Hr.
  - cbn [sheets_loop] in H. unfold ret in H. inversion H; subst.
    rewrite Z.add_0_r in Hr.
    cbn [Nat.add sheets_loop]. unfold bind. rewrite Hr. reflexivity.
  - cbn [sheets_loop] in H. unfold bind in H.
    cbn [Nat.add sheets_loop]. unfold bind.
    destruct (retry (sheet_attempt rnd i sheets) MAX_TRIES 0 g)
      as [[[[geom out]|] tc0] g2]; cbn [fst] in *.
    + eapply IH; [exact H|].
      replace (i + 1 + Z.of_nat done)%Z with (i + Z.of_nat (S done))%Z by lia.
      exact Hr.
    + unfold ret in H. discriminate.
Qed.

Lemma queries_loop_prefix (count : nat) :
  forall n sheets file g ok file' g',
  queries_loop rnd count n sheets file g = ((ok, file'), g') ->
  exists recs, file' = file ++ recs /\ (ok = true -> length recs = count).
Proof.
  induction count as [|count IH]; intros n sheets file g ok file' g' H;
    cbn [queries_loop] in H.
  - unfold ret in H. inversion H; subst. exists []. now rewrite app_nil_r.
  - unfold bind in H.
    destruct (retry (query_attempt rnd n sheets) MAX_TRIES 0 g)
      as [[[out|] tc] g1]; cbn [fst] in H.
    + apply IH in H. destruct H as (recs & -> & Hlen).
      exists (out :: recs). rewrite <- app_assoc. split; [reflexivity|].
      intros Hok. simpl. f_equal. auto.
    + unfold ret in H. inversion H; subst. exists [].
      rewrite app_nil_r. split; [reflexivity|discriminate].
Qed.

Lemma queries_loop_exhaust (done more : nat) :
  forall n sheets file g file' g0 tc g1,
  queries_loop rnd done n sheets file g = ((true, file'), g0) ->
  retry (query_attempt rnd n sheets) MAX_TRIES 0 g0 = ((None, tc), g1) ->
  queries_loop rnd (done + S more) n sheets file g = ((false, file'), g1).
Proof.
  induction done as [|done IH]; intros n sheets file g file' g0 tc g1 H Hr.
  - cbn [queries_loop] in H. unfold ret in H. inversion H; subst.
    cbn [Nat.add queries_loop]. unfold bind. rewrite Hr. reflexivity.
  - cbn [queries_loop] in H. unfold bind in H.
    cbn [Nat.add queries_loop]. unfold bind.
    destruct (retry (query_attempt rnd n sheets) MAX_TRIES 0 g)
      as [[[out|] tc0] g2]; cbn [fst] in *.
    + eapply IH; [exact H|exact Hr].
    + unfold ret in H. discriminate.
Qed.

End EngineFacts.

(** ** The engine, in every arithmetic *)

(** C5.  Whenever the file holds a ["Z k ..."] record for sheet [i], sheet
    [i] is the geometry of the source sheet [k < i] followed by the mirror
    image of each of its points, lines and circles across the fold line,
    and by the fold line itself as one more line; so it has twice the
    points, twice the lines plus one, and twice the circles of sheet
    [k]. *)
Theorem fold_commit_doubles (num : Type) (A : Arith num) (T : Trig num)
    (G : Type) (rnd : Random num G) (n q : Z) (g g' : G) (ok : bool)
    (sheets : list (SheetGeometry num)) (file : list (OutLine num)) :
  IntContract rnd ->
  sheets_phase rnd n q g = ((ok, sheets, file), g') ->
  length file = length sheets /\
  forall i k x1 y1 x2 y2,
    nth_error file i = Some (OutZ k x1 y1 x2 y2) ->
    (1 <= k < Z.of_nat i)%Z /\
    exists src new,
      nth_error sheets (Z.to_nat k) = Some src /\
      nth_error sheets i = Some new /\
      folded_from src new (mkLine (mkPoint x1 y1) (mkPoint x2 y2)) /\
      length new.(points) = (2 * length src.(points))%nat /\
      length new.(lines) = (2 * length src.(lines) + 1)%nat /\
      length new.(circles) = (2 * length src.(circles))%nat.
Proof.
  intros HC H. unfold sheets_phase in H.
  eapply sheets_loop_invariant with (P := fold_records_ok) in H.
  - destruct H as (done & _ & (_ & Hls & Hlf & Hrec) & _).
    split; [congruence|].
    intros i k x1 y1 x2 y2 Hi.
    destruct (Hrec _ _ _ _ _ _ Hi) as (Hk & src & new & Hsrc & Hnew & Hff).
    split; [exact Hk|]. exists src, new.
    repeat split; try assumption; try apply Hff;
      apply (folded_from_sizes Hff).
  - intros i sh fl geom out Hinv Hacc. eapply fold_records_step; eauto.
  - split; [lia|]. split; [reflexivity|]. split; [reflexivity|].
    intros [|[|j]] k x1 y1 x2 y2 Hj; simpl in Hj; discriminate.
Qed.

(** C10.  With strategy 0 the fold line goes through two random points.
    Strategy 1 (point plus direction) on a sheet without points, and
    strategy 2 (tangent to a circle) on a sheet without circles, build the
    fold line in exactly that way: the pass neither fails nor draws the
    strategy again.  Likewise a query on a sheet without points takes a
    random point whatever strategy was drawn. *)
Theorem strategy_fallback (num : Type) (A : Arith num) (T : Trig num)
    (G : Type) (rnd : Random num G) :
  (forall baseGeom, choose_fold_line rnd 0 baseGeom = random_line rnd) /\
  (forall baseGeom, baseGeom.(points) = [] ->
     choose_fold_line rnd 1 baseGeom = random_line rnd) /\
  (forall baseGeom, baseGeom.(circles) = [] ->
     choose_fold_line rnd 2 baseGeom = random_line rnd) /\
  (forall strategy geom, geom.(points) = [] ->
     choose_query_point rnd strategy geom = random_point rnd).
Proof.
  repeat split.
  - intros baseGeom Hp. unfold choose_fold_line. rewrite Hp. reflexivity.
  - intros baseGeom Hc. unfold choose_fold_line. rewrite Hc.
    destruct (empty (points baseGeom)); reflexivity.
  - intros strategy geom Hp. unfold choose_query_point. rewrite Hp.
    now rewrite orb_true_r.
Qed.

(** C6, as the code has it.  When a retry loop that the engine reaches
    ends without an accepted candidate, it has made exactly [MAX_TRIES]
    passes, all rejecting, and [generate_test] returns [false].  The file
    is then closed as it stands: it holds the header line followed by the
    records of the sheets (and queries) accepted before the failing loop,
    and nothing from the failing loop. *)
Theorem exhaustion_returns_false (num : Type) (A : Arith num) (T : Trig num)
    (G : Type) (rnd : Random num G) (n q : Z) (g : G) :
  (forall done sheets file g0 tc g1,
     (done < Z.to_nat n)%nat ->
     sheets_loop rnd done 1 [no_geometry] [Header n q] g
       = ((true, sheets, file), g0) ->
     retry (sheet_attempt rnd (1 + Z.of_nat done) sheets) MAX_TRIES 0 g0
       = ((None, tc), g1) ->
     tc = MAX_TRIES /\
     (forall j, (j < MAX_TRIES)%nat ->
        fst (sheet_attempt rnd (1 + Z.of_nat done) sheets
               (after_attempts (sheet_attempt rnd (1 + Z.of_nat done) sheets) j g0))
          = None) /\
     generate_test rnd true n q g = ((false, file), g1) /\
     exists recs, file = Header n q :: recs /\ length recs = done) /\
  (forall sheets file g0 done file' g0' tc g1,
     sheets_phase rnd n q g = ((true, sheets, file), g0) ->
     (done < Z.to_nat q)%nat ->
     queries_loop rnd done n sheets file g0 = ((true, file'), g0') ->
     retry (query_attempt rnd n sheets) MAX_TRIES 0 g0' = ((None, tc), g1) ->
     tc = MAX_TRIES /\
     (forall j, (j < MAX_TRIES)%nat ->
        fst (query_attempt rnd n sheets
               (after_attempts (query_attempt rnd n sheets) j g0')) = None) /\
     generate_test rnd true n q g = ((false, file'), g1) /\
     exists recs, file' = Header n q :: recs /\
                  length recs = (Z.to_nat n + done)%nat).
Proof.
  split.
  - intros done sheets file g0 tc g1 Hd Hloop Hr.
    destruct (retry_none _ _ _ _ Hr) as (Htc & _ & Hall). cbn [Nat.add] in Htc.
    split; [exact Htc|]. split; [exact Hall|]. split.
    + unfold generate_test, sheets_phase. cbn [negb]. unfold bind.
      replace (Z.to_nat n) with (done + S (Z.to_nat n - done - 1))%nat by lia.
      erewrite sheets_loop_exhaust; [reflexivity|exact Hloop|exact Hr].
    + apply sheets_loop_prefix in Hloop. destruct Hloop as (recs & -> & Hlen).
      exists recs. split; [reflexivity|auto].
  - intros sheets file g0 done file' g0' tc g1 Hs Hd Hloop Hr.
    destruct (retry_none _ _ _ _ Hr) as (Htc & _ & Hall). cbn [Nat.add] in Htc.
    split; [exact Htc|]. split; [exact Hall|]. split.
    + unfold generate_test. cbn [negb]. unfold bind. rewrite Hs. cbn [negb].
      replace (Z.to_nat q) with (done + S (Z.to_nat q - done - 1))%nat by lia.
      erewrite queries_loop_exhaust; [reflexivity|exact Hloop|exact Hr].
    + unfold sheets_phase in Hs.
      apply sheets_loop_prefix in Hs. destruct Hs as (recs1 & -> & Hl1).
      apply queries_loop_prefix in Hloop. destruct Hloop as (recs2 & -> & Hl2).
      exists (recs1 ++ recs2). split; [reflexivity|].
      rewrite length_app, Hl1, Hl2; reflexivity.
Qed.

(** * Properties over the reals *)

Ltac rarith :=
  cbn [of_Z add sub mul div nsqrt nabs ltb RArith ncos nsin M_PI RTrig
       x y p1 p2 c r points lines circles] in *.

Lemma Rltb_true (a b : R) : Rltb a b = true <-> a < b.
Proof. unfold Rltb. destruct (Rlt_dec a b); split; (lra || discriminate || auto). Qed.

Lemma Rltb_false (a b : R) : Rltb a b = false <-> b <= a.
Proof. unfold Rltb. destruct (Rlt_dec a b); split; (lra || discriminate || auto). Qed.

Lemma ZERO_TOLERANCE_R : ZERO_TOLERANCE = 1 / 1000000000.
Proof. reflexivity. Qed.

Lemma DANGER_EPS_R : DANGER_EPS = 5 / 100.
Proof. reflexivity. Qed.

Lemma band_false (d : R) : in_band d = false <-> clear d.
Proof.
  unfold in_band, clear. rarith.
  rewrite andb_false_iff, !Rltb_false. split; intros [H|H]; lra.
Qed.

Lemma band_true (d : R) :
  in_band d = true <-> ZERO_TOLERANCE < d < DANGER_EPS.
Proof. unfold in_band. rarith. rewrite andb_true_iff, !Rltb_true. tauto. Qed.

(** ** The safety oracle decides the clearance rule *)

Lemma isSafePoint_true_iff (p : Point R) (g : SheetGeometry R) :
  isSafePoint p g = true <->
    (forall pt, In pt g.(points) -> clear (dist p pt)) /\
    (forall l, In l g.(lines) -> clear (distPointLine p l)) /\
    (forall c0, In c0 g.(circles) -> clear (Rabs (dist p c0.(c) - c0.(r)))).
Proof.
  rewrite isSafePoint_in_band. rarith.
  split; intros (Hp & Hl & Hc); repeat split; intros a Hin;
    apply band_false; auto.
Qed.

Lemma isSafeFold_true_iff (l : Line R) (g : SheetGeometry R) :
  isSafeFold l g = true <->
    (forall pt, In pt g.(points) -> clear (distPointLine pt l)) /\
    (forall c0, In c0 g.(circles) ->
       clear (distPointLine c0.(c) l) /\
       clear (Rabs (distPointLine c0.(c) l - c0.(r)))).
Proof.
  rewrite isSafeFold_in_band. rarith.
  split; intros (Hp & Hc); split.
  - intros a Hin. apply band_false; auto.
  - intros a Hin. destruct (Hc a Hin). split; apply band_false; auto.
  - intros a Hin. apply band_false; auto.
  - intros a Hin. destruct (Hc a Hin). split; apply band_false; auto.
Qed.

(** C1.  In every arithmetic, [isSafePoint p g] returns [true] exactly
    when no distance from [p] to a stored point, no point-to-infinite-line
    distance to a stored line and no boundary distance
    [|dist(p, center) - r|] to a stored circle tests strictly between
    [ZERO_TOLERANCE] and [DANGER_EPS]; over the reals, exactly when each
    of these distances is at most [ZERO_TOLERANCE] or at least
    [DANGER_EPS]. *)
Theorem isSafePoint_iff_clear :
  (forall (num : Type) (A : Arith num) (p : Point num) (g : SheetGeometry num),
     isSafePoint p g = true <->
       (forall pt, In pt g.(points) -> in_band (dist p pt) = false) /\
       (forall l, In l g.(lines) -> in_band (distPointLine p l) = false) /\
       (forall c0, In c0 g.(circles) ->
          in_band (nabs (sub (dist p c0.(c)) c0.(r))) = false)) /\
  (forall (p : Point R) (g : SheetGeometry R),
     isSafePoint p g = true <->
       (forall pt, In pt g.(points) -> clear (dist p pt)) /\
       (forall l, In l g.(lines) -> clear (distPointLine p l)) /\
       (forall c0, In c0 g.(circles) -> clear (Rabs (dist p c0.(c) - c0.(r))))).
Proof.
  split.
  - intros num A p g. apply isSafePoint_in_band.
  - intros p g. apply isSafePoint_true_iff.
Qed.

(** C2.  In every arithmetic, [isSafeFold l g] returns [true] exactly
    when (a) no stored point is at a distance from the line that tests
    strictly between the thresholds and (b) for every stored circle
    neither the centre-to-line distance [d] nor the tangency gap [|d - r|]
    does; over the reals, exactly when these distances are at most
    [ZERO_TOLERANCE] or at least [DANGER_EPS].  The stored lines impose no
    condition: the answer does not change when they are replaced by any
    other list. *)
Theorem isSafeFold_iff_clear :
  (forall (num : Type) (A : Arith num) (l : Line num) (g : SheetGeometry num),
     (isSafeFold l g = true <->
        (forall pt, In pt g.(points) -> in_band (distPointLine pt l) = false) /\
        (forall c0, In c0 g.(circles) ->
           in_band (distPointLine c0.(c) l) = false /\
           in_band (nabs (sub (distPointLine c0.(c) l) c0.(r))) = false)) /\
     (forall lns,
        isSafeFold l (mkSheet g.(points) lns g.(circles)) = isSafeFold l g)) /\
  (forall (l : Line R) (g : SheetGeometry R),
     isSafeFold l g = true <->
       (forall pt, In pt g.(points) -> clear (distPointLine pt l)) /\
       (forall c0, In c0 g.(circles) ->
          clear (distPointLine c0.(c) l) /\
          clear (Rabs (distPointLine c0.(c) l - c0.(r))))).
Proof.
  split.
  - intros num A l g. split; [apply isSafeFold_in_band|reflexivity].
  - intros l g. apply isSafeFold_true_iff.
Qed.

(** ** Projection foot, reflection and distance over the reals *)

Lemma len_sq_distSq (l : Line R) : len_sq l = distSq l.(p1) l.(p2).
Proof. unfold len_sq, distSq. rarith. ring. Qed.

Lemma sum_sqr_nonneg (a b : R) : 0 <= a * a + b * b.
Proof. nra. Qed.

Lemma len_sq_nonneg (l : Line R) : 0 <= len_sq l.
Proof. apply sum_sqr_nonneg. Qed.

Lemma distSq_nonneg (a b : Point R) : 0 <= distSq a b.
Proof. apply sum_sqr_nonneg. Qed.

Lemma ZERO_TOLERANCE_pos : 0 < ZERO_TOLERANCE.
Proof. rewrite ZERO_TOLERANCE_R. lra. Qed.

Lemma distPointLine_eq (p : Point R) (l : Line R) :
  distPointLine p l =
  if Rltb (len_sq l) ZERO_TOLERANCE then dist p l.(p1) else dist p (foot p l).
Proof. reflexivity. Qed.

Lemma reflectPoint_eq (p : Point R) (l : Line R) :
  reflectPoint p l =
  if Rltb (len_sq l) ZERO_TOLERANCE then p
  else mkPoint (2 * (foot p l).(x) - p.(x)) (2 * (foot p l).(y) - p.(y)).
Proof. reflexivity. Qed.

Lemma distPointLine_nondeg (p : Point R) (l : Line R) :
  ZERO_TOLERANCE <= len_sq l -> distPointLine p l = dist p (foot p l).
Proof.
  intros H. rewrite distPointLine_eq.
  apply Rltb_false in H. now rewrite H.
Qed.

Lemma reflectPoint_nondeg (p : Point R) (l : Line R) :
  ZERO_TOLERANCE <= len_sq l ->
  reflectPoint p l =
  mkPoint (2 * (foot p l).(x) - p.(x)) (2 * (foot p l).(y) - p.(y)).
Proof.
  intros H. rewrite reflectPoint_eq.
  apply Rltb_false in H. now rewrite H.
Qed.

Lemma point_eq (a b : Point R) : a.(x) = b.(x) -> a.(y) = b.(y) -> a = b.
Proof. destruct a, b; simpl; intros -> ->; reflexivity. Qed.

(** Reflection across any line, degenerate or not, undoes itself. *)
Lemma reflectPoint_twice (p : Point R) (l : Line R) :
  reflectPoint (reflectPoint p l) l = p.
Proof.
  rewrite !reflectPoint_eq.
  destruct (Rltb (len_sq l) ZERO_TOLERANCE) eqn:E; [reflexivity|].
  apply Rltb_false in E.
  assert (Hl : len_sq l <> 0) by (pose proof ZERO_TOLERANCE_pos; lra).
  unfold foot, param. fold (len_sq l) in *.
  destruct p as [px py], l as [[ax ay] [bx by_]].
  unfold len_sq in *. rarith.
  apply point_eq; rarith; field; exact Hl.
Qed.

(** C3.  For a line whose two points do not coincide within tolerance
    (squared length at least [ZERO_TOLERANCE]), reflecting a point twice
    across the line gives the point back, exactly over the reals. *)
Theorem reflectPoint_involutive (p : Point R) (l : Line R) :
  ZERO_TOLERANCE <= distSq l.(p1) l.(p2) ->
  reflectPoint (reflectPoint p l) l = p.
Proof. intros _. apply reflectPoint_twice. Qed.

(** ** Distance to the infinite line *)

Lemma sum_sqr_zero (a b : R) : a * a + b * b = 0 -> a = 0 /\ b = 0.
Proof. intros H. split; nra. Qed.

Lemma dist_zero_iff (a b : Point R) : dist a b = 0 <-> a = b.
Proof.
  unfold dist. rarith. split.
  - intros H. apply sqrt_eq_0 in H; [|apply distSq_nonneg].
    unfold distSq in H. rarith. apply sum_sqr_zero in H.
    apply point_eq; lra.
  - intros ->. replace (distSq b b) with 0; [apply sqrt_0|].
    unfold distSq. rarith. ring.
Qed.

Lemma foot_onLine (p : Point R) (l : Line R) : onLine (foot p l) l.
Proof. exists (param p l). split; reflexivity. Qed.

Lemma onLine_foot (p : Point R) (l : Line R) :
  len_sq l <> 0 -> onLine p l -> foot p l = p.
Proof.
  intros Hl (t & Hx & Hy).
  assert (Ht : param p l = t).
  { unfold param. rewrite Hx, Hy. unfold len_sq in *. field. exact Hl. }
  unfold foot. rewrite Ht. apply point_eq; simpl; congruence.
Qed.

(** The squared distance to the foot is the squared cross product over
    the squared length: the distance to the infinite line. *)
Lemma distSq_foot (p : Point R) (l : Line R) :
  len_sq l <> 0 ->
  distSq p (foot p l) =
  Rsqr ((p.(x) - l.(p1).(x)) * (l.(p2).(y) - l.(p1).(y)) -
        (p.(y) - l.(p1).(y)) * (l.(p2).(x) - l.(p1).(x))) / len_sq l.
Proof.
  intros Hl. unfold distSq, foot, param, Rsqr. rarith.
  unfold len_sq in *. field. exact Hl.
Qed.

Lemma distPointLine_cross (p : Point R) (l : Line R) :
  ZERO_TOLERANCE <= len_sq l ->
  distPointLine p l =
  Rabs ((p.(x) - l.(p1).(x)) * (l.(p2).(y) - l.(p1).(y)) -
        (p.(y) - l.(p1).(y)) * (l.(p2).(x) - l.(p1).(x))) / sqrt (len_sq l).
Proof.
  intros H. pose proof ZERO_TOLERANCE_pos as Hz.
  rewrite distPointLine_nondeg by exact H.
  unfold dist. rarith. rewrite distSq_foot by lra.
  rewrite sqrt_div_alt by lra. now rewrite sqrt_Rsqr_abs.
Qed.

Lemma distPointLine_zero_iff (p : Point R) (l : Line R) :
  ZERO_TOLERANCE <= len_sq l ->
  (distPointLine p l = 0 <-> onLine p l).
Proof.
  intros H. pose proof ZERO_TOLERANCE_pos as Hz.
  rewrite distPointLine_nondeg by exact H. rewrite dist_zero_iff. split.
  - intros ->. apply foot_onLine.
  - intros Ho. symmetry. apply onLine_foot; [lra | exact Ho].
Qed.

Lemma len_sq_nonzero (l : Line R) : ZERO_TOLERANCE <= len_sq l -> len_sq l <> 0.
Proof. intros H. pose proof ZERO_TOLERANCE_pos. lra. Qed.

Lemma distSq_pythagoras (p q : Point R) (l : Line R) :
  len_sq l <> 0 -> onLine q l ->
  distSq p q = distSq p (foot p l) + distSq (foot p l) q.
Proof.
  intros Hl (t & Hx & Hy).
  unfold distSq, foot, param. rarith. rewrite Hx, Hy.
  unfold len_sq in *. field. exact Hl.
Qed.

(** Within tolerance of the line: the least distance from [p] to a point
    of the infinite line is the one to the foot. *)
Lemma distPointLine_within_iff (p : Point R) (l : Line R) :
  ZERO_TOLERANCE <= len_sq l ->
  (distPointLine p l <= ZERO_TOLERANCE <->
   exists q, onLine q l /\ dist p q <= ZERO_TOLERANCE).
Proof.
  intros H. rewrite distPointLine_nondeg by exact H. split.
  - intros Hd. exists (foot p l). split; [apply foot_onLine|exact Hd].
  - intros (q & Hq & Hd). apply Rle_trans with (dist p q); [|exact Hd].
    unfold dist. rarith. apply sqrt_le_1_alt.
    rewrite (distSq_pythagoras p (len_sq_nonzero H) Hq).
    pose proof (distSq_nonneg (foot p l) q). lra.
Qed.

(** In binary64 the computed distance is the distance to the line only up
    to rounding: for (0.1, 0.1), a point of the diagonal, it is positive
    (and below [ZERO_TOLERANCE]); for (2^-600, 0.5), which is not on the
    vertical axis, it is zero. *)
Lemma distPointLine_rounding_binary64 :
  on_diagonal_f64.(x) = on_diagonal_f64.(y) /\
  PrimFloat.ltb (f64 0 1) (distPointLine on_diagonal_f64 diagonal_f64) = true /\
  PrimFloat.leb (distPointLine on_diagonal_f64 diagonal_f64)
                (ZERO_TOLERANCE (A := F64)) = true /\
  PrimFloat.ltb (f64 0 1) off_vertical_f64.(x) = true /\
  distPointLine off_vertical_f64 vertical_f64 = f64 0 1.
Proof. repeat split; vm_compute; reflexivity. Qed.

(** C4, as the code has it.  Over the reals, for a line that is not
    degenerate, [distPointLine p l] is the distance
    [|cross| / |p2 - p1|] from [p] to the infinite line through the two
    points of [l] (any parameter [t], no clamping to the segment).  So it
    is at most [ZERO_TOLERANCE] if and only if [p] is within
    [ZERO_TOLERANCE] of a point of that line, which every point of the
    line is, and it is exactly zero if and only if [p] lies on the line.
    In binary64 the value carries rounding error: exact zero and lying on
    the line no longer coincide, in either direction, on the two inputs
    above. *)
Theorem distPointLine_zero_iff_onLine :
  (forall (p : Point R) (l : Line R),
     ZERO_TOLERANCE <= distSq l.(p1) l.(p2) ->
     (distPointLine p l <= ZERO_TOLERANCE <->
        exists q, onLine q l /\ dist p q <= ZERO_TOLERANCE) /\
     (distPointLine p l = 0 <-> onLine p l) /\
     (onLine p l -> distPointLine p l <= ZERO_TOLERANCE) /\
     distPointLine p l =
       Rabs ((p.(x) - l.(p1).(x)) * (l.(p2).(y) - l.(p1).(y)) -
             (p.(y) - l.(p1).(y)) * (l.(p2).(x) - l.(p1).(x)))
       / sqrt (len_sq l)) /\
  (on_diagonal_f64.(x) = on_diagonal_f64.(y) /\
   PrimFloat.ltb (f64 0 1) (distPointLine on_diagonal_f64 diagonal_f64) = true /\
   PrimFloat.leb (distPointLine on_diagonal_f64 diagonal_f64)
                 (ZERO_TOLERANCE (A := F64)) = true /\
   PrimFloat.ltb (f64 0 1) off_vertical_f64.(x) = true /\
   distPointLine off_vertical_f64 vertical_f64 = f64 0 1).
Proof.
  split; [|exact distPointLine_rounding_binary64].
  intros p l. rewrite <- len_sq_distSq. intros H.
  pose proof ZERO_TOLERANCE_pos as Hz.
  pose proof (distPointLine_zero_iff p H) as Hiff.
  split; [now apply distPointLine_within_iff|].
  split; [exact Hiff|]. split; [|now apply distPointLine_cross].
  intros Ho. apply Hiff in Ho. lra.
Qed.

(** Reflection preserves squared distances. *)
Lemma reflectPoint_isometry (a b : Point R) (l : Line R) :
  distSq (reflectPoint a l) (reflectPoint b l) = distSq a b.
Proof.
  rewrite !reflectPoint_eq.
  destruct (Rltb (len_sq l) ZERO_TOLERANCE) eqn:E; [reflexivity|].
  apply Rltb_false in E.
  assert (Hl : len_sq l <> 0) by (pose proof ZERO_TOLERANCE_pos; lra).
  unfold distSq, foot, param.
  destruct a as [ax ay], b as [bx by_], l as [[px py] [qx qy]].
  unfold len_sq in *. rarith. field. exact Hl.
Qed.

Lemma size_dist_range (G : Type) (rnd : Random R G) (g : G) :
  RandomContract rnd -> 1 <= fst (size_dist rnd g) <= 5.
Proof. intros HC. unfold size_dist. rarith. apply (real_in_range HC). lra. Qed.

Lemma DANGER_EPS_lt_1 : DANGER_EPS < 1.
Proof. rewrite DANGER_EPS_R. lra. Qed.

(** ** Invariants of the committed sheets, over the reals *)

Lemma check_and_commit_nondegenerate (k : Z) (baseGeom : SheetGeometry R)
    (foldLine : Line R) (geom : SheetGeometry R) (out : OutLine R) :
  check_and_commit k baseGeom foldLine = Some (geom, out) ->
  ZERO_TOLERANCE <= distSq foldLine.(p1) foldLine.(p2).
Proof.
  intros H. apply check_and_commit_some in H. destruct H as (H & _).
  now apply Rltb_false in H.
Qed.

Lemma at_index_sheet (sheets : list (SheetGeometry R)) (k : Z)
    (Q : SheetGeometry R -> Prop) :
  Q no_geometry -> (forall geom, In geom sheets -> Q geom) ->
  Q (at_index sheets k no_geometry).
Proof.
  intros Hd Hall. unfold at_index.
  destruct (nth_in_or_default (Z.to_nat k) sheets no_geometry) as [Hn|Hn].
  - now apply Hall.
  - now rewrite Hn.
Qed.

(** *** Radii *)

Lemma radii_step (G : Type) (rnd : Random R G) (i : Z)
    (sheets : list (SheetGeometry R)) (geom : SheetGeometry R) (out : OutLine R) :
  RandomContract rnd ->
  radii_in_range sheets -> accepted rnd i sheets geom out ->
  radii_in_range (sheets ++ [geom]).
Proof.
  intros HC Hinv Hacc geom' c0 Hin Hc.
  apply in_app_or in Hin. destruct Hin as [Hin|[<-|[]]]; [eapply Hinv; eauto|].
  destruct Hacc as [x1 y1 gw gh w h|cx cy gr cr|gk foldLine geom out k Hi Hcc].
  - destruct Hc.
  - destruct Hc as [<-|[]]. simpl. apply size_dist_range, HC.
  - apply check_and_commit_some in Hcc. destruct Hcc as (_ & _ & (_ & _ & Hcs) & _).
    rewrite Hcs in Hc. clear Hcs.
    assert (Hbase : forall c1, In c1 (circles (at_index sheets k no_geometry)) ->
                     1 <= c1.(r) <= 5).
    { apply at_index_sheet with (Q := fun s => forall c1, In c1 (circles s) -> _).
      - intros c1 [].
      - intros s Hs c1 H1. eapply Hinv; eauto. }
    apply in_app_or in Hc. destruct Hc as [Hc|Hc]; [now apply Hbase|].
    apply in_map_iff in Hc. destruct Hc as (c1 & <- & H1). simpl. now apply Hbase.
Qed.

Lemma sheets_phase_radii (G : Type) (rnd : Random R G) (n q : Z) (g g' : G)
    (ok : bool) (sheets : list (SheetGeometry R)) (file : list (OutLine R)) :
  RandomContract rnd ->
  sheets_phase rnd n q g = ((ok, sheets, file), g') ->
  radii_in_range sheets.
Proof.
  intros HC H. unfold sheets_phase in H.
  eapply sheets_loop_invariant
    with (P := fun _ sheets _ => radii_in_range sheets) in H.
  - destruct H as (done & _ & HP & _). exact HP.
  - intros i sh fl geom out Hinv Hacc. eapply radii_step; eauto.
  - intros geom c0 [<-|[]] [].
Qed.

(** C9.  Every circle stored in any sheet the engine has committed has
    its radius in [[1, 5]], hence above [DANGER_EPS]; and a committed fold
    keeps the radii of the source sheet, once for the copy and once for
    the mirror image, changing only the centres. *)
Theorem committed_circle_radius (G : Type) (rnd : Random R G) (n q : Z) (g g' : G)
    (ok : bool) (sheets : list (SheetGeometry R)) (file : list (OutLine R)) :
  RandomContract rnd ->
  sheets_phase rnd n q g = ((ok, sheets, file), g') ->
  (forall geom c0, In geom sheets -> In c0 geom.(circles) ->
     1 <= c0.(r) <= 5 /\ DANGER_EPS < c0.(r)) /\
  (forall k baseGeom foldLine geom out,
     check_and_commit k baseGeom foldLine = Some (geom, out) ->
     map (@r R) geom.(circles) =
       map (@r R) baseGeom.(circles) ++ map (@r R) baseGeom.(circles) /\
     map (@c R) geom.(circles) =
       map (@c R) baseGeom.(circles) ++
       map (fun c0 => reflectPoint c0.(c) foldLine) baseGeom.(circles)).
Proof.
  intros HC H. split.
  - intros geom c0 Hg Hc.
    pose proof (sheets_phase_radii _ _ _ HC H geom c0 Hg Hc) as Hr.
    pose proof DANGER_EPS_lt_1. split; [exact Hr|lra].
  - intros k baseGeom foldLine geom out Hcc.
    apply check_and_commit_some in Hcc.
    destruct Hcc as (_ & _ & (_ & _ & Hcs) & _).
    rewrite Hcs, !map_app, !map_map. split; reflexivity.
Qed.

(** *** Stored lines are not degenerate *)

Lemma rectangle_edges (x1 y1 w h : R) (l : Line R) :
  1 <= w -> 1 <= h ->
  In l [mkLine (mkPoint x1 y1) (mkPoint (x1 + w) y1);
        mkLine (mkPoint (x1 + w) y1) (mkPoint (x1 + w) (y1 + h));
        mkLine (mkPoint (x1 + w) (y1 + h)) (mkPoint x1 (y1 + h));
        mkLine (mkPoint x1 (y1 + h)) (mkPoint x1 y1)] ->
  ZERO_TOLERANCE <= len_sq l.
Proof.
  intros Hw Hh Hin. rewrite ZERO_TOLERANCE_R.
  simpl in Hin.
  destruct Hin as [<-|[<-|[<-|[<-|[]]]]]; unfold len_sq; rarith; nra.
Qed.

Lemma lines_step (G : Type) (rnd : Random R G) (i : Z)
    (sheets : list (SheetGeometry R)) (geom : SheetGeometry R) (out : OutLine R) :
  RandomContract rnd ->
  lines_nondegenerate sheets -> accepted rnd i sheets geom out ->
  lines_nondegenerate (sheets ++ [geom]).
Proof.
  intros HC Hs Hacc geom' l Hin Hl.
  apply in_app_or in Hin. destruct Hin as [Hin|[<-|[]]]; [eapply Hs; eauto|].
  destruct Hacc as [x1 y1 gw gh w h|cx cy gr cr|gk foldLine geom out k Hi Hcc].
  - rarith. eapply rectangle_edges; [| |exact Hl]; apply size_dist_range, HC.
  - destruct Hl.
  - pose proof (check_and_commit_nondegenerate _ _ _ Hcc) as Hnd.
    apply check_and_commit_some in Hcc.
    destruct Hcc as (_ & _ & (_ & Hls & _) & _).
    assert (Hbase : forall l, In l (lines (at_index sheets k no_geometry)) ->
                     ZERO_TOLERANCE <= len_sq l).
    { apply at_index_sheet with (Q := fun s => forall l, In l (lines s) -> _).
      - intros l0 [].
      - intros s Hin l0 H0. eapply Hs; eauto. }
    rewrite Hls in Hl. clear Hls.
    apply in_app_or in Hl. destruct Hl as [Hl|[<-|[]]].
    + apply in_app_or in Hl. destruct Hl as [Hl|Hl]; [now apply Hbase|].
      apply in_map_iff in Hl. destruct Hl as (l0 & <- & H0).
      rewrite len_sq_distSq. cbn [p1 p2].
      rewrite reflectPoint_isometry, <- len_sq_distSq. now apply Hbase.
    + now rewrite len_sq_distSq.
Qed.

Lemma sheets_phase_lines (G : Type) (rnd : Random R G) (n q : Z) (g g' : G)
    (ok : bool) (sheets : list (SheetGeometry R)) (file : list (OutLine R)) :
  RandomContract rnd ->
  sheets_phase rnd n q g = ((ok, sheets, file), g') ->
  lines_nondegenerate sheets.
Proof.
  intros HC H. unfold sheets_phase in H.
  eapply sheets_loop_invariant
    with (P := fun _ sheets _ => lines_nondegenerate sheets) in H.
  - destruct H as (done & _ & HP & _). exact HP.
  - intros i sh fl geom out Hinv Hacc. eapply lines_step; eauto.
  - intros geom l [<-|[]] [].
Qed.

(** *** The crease of a commit, in every arithmetic and in binary64 *)

Section BranchFacts.

Context {num : Type} {A : Arith num}.

Lemma distPointLine_branches (p : Point num) (l : Line num) :
  distPointLine p l =
  if degenerate l then dist p l.(p1) else dist p (projection p l).
Proof. reflexivity. Qed.

Lemma reflectPoint_branches (p : Point num) (l : Line num) :
  reflectPoint p l =
  if degenerate l then p
  else mkPoint (sub (mul (of_Z 2) (projection p l).(x)) p.(x))
               (sub (mul (of_Z 2) (projection p l).(y)) p.(y)).
Proof. reflexivity. Qed.

Lemma check_and_commit_fold_of (k : Z) (baseGeom : SheetGeometry num)
    (foldLine : Line num) (geom : SheetGeometry num) (out : OutLine num) :
  check_and_commit k baseGeom foldLine = Some (geom, out) ->
  geom = fold_of baseGeom foldLine /\ In foldLine geom.(lines).
Proof.
  unfold check_and_commit.
  destruct (ltb _ ZERO_TOLERANCE); [discriminate|].
  destruct (isSafeFold foldLine baseGeom); [|discriminate].
  cbn [negb]. intros H. inversion H; subst; clear H.
  split; [reflexivity|]. cbn [lines]. apply in_or_app. right. now left.
Qed.

End BranchFacts.

(** In binary64 the guard of the engine, on [distSq(p1, p2)], and the
    test of the two functions, on [len_sq], compare the same double:
    [a - b] and [b - a] are equal or opposite, and have the same square. *)
Lemma binary_round_aux_negb (s : bool) (m e : Z) (l : location) :
  binary_round_aux prec emax (negb s) m e l =
  SFopp (binary_round_aux prec emax s m e l).
Proof.
  unfold binary_round_aux.
  destruct (shr_fexp prec emax m e l) as [mrs' e'].
  destruct (shr_fexp prec emax _ e' loc_Exact) as [mrs'' e''].
  destruct (shr_m mrs''); [reflexivity| |reflexivity].
  destruct (Z.leb e'' (emax - prec)); reflexivity.
Qed.

Lemma binary_round_true (m : positive) (e : Z) :
  binary_round prec emax true m e = SFopp (binary_round prec emax false m e).
Proof.
  unfold binary_round. destruct (shl_align m e _) as [mz ez].
  apply (binary_round_aux_negb false).
Qed.

Lemma SFopp_involutive (u : spec_float) : SFopp (SFopp u) = u.
Proof. destruct u; simpl; rewrite ?negb_involutive; reflexivity. Qed.

Lemma binary_normalize_opp (m e : Z) :
  same_square (binary_normalize prec emax m e false)
              (binary_normalize prec emax (- m) e false).
Proof.
  destruct m as [|m|m]; cbn [Z.opp binary_normalize].
  - now left.
  - right. apply binary_round_true.
  - right. rewrite binary_round_true. now rewrite SFopp_involutive.
Qed.

Lemma SF64sub_swap (a b : spec_float) :
  same_square (SF64sub a b) (SF64sub b a).
Proof.
  unfold SF64sub, SFsub.
  destruct a as [sa|sa| |sa ma ea], b as [sb|sb| |sb mb eb];
    [ try (destruct sa); try (destruct sb); ((now left) || (now right)) ..
    | ].
  cbv zeta. rewrite (Z.min_comm eb ea).
  set (X := cond_Zopp sa _). set (Y := cond_Zopp sb _).
  replace (Y - X)%Z with (- (X - Y))%Z by lia.
  apply binary_normalize_opp.
Qed.

Lemma SF64mul_square_opp (u : spec_float) :
  SF64mul (SFopp u) (SFopp u) = SF64mul u u.
Proof. destruct u as [s|s| |s m e]; try reflexivity; destruct s; reflexivity. Qed.

Lemma square_sub_swap (a b : float) :
  ((a - b) * (a - b) = (b - a) * (b - a))%float.
Proof.
  apply Prim2SF_inj. rewrite !mul_spec, !sub_spec.
  destruct (SF64sub_swap (Prim2SF b) (Prim2SF a)) as [E|E]; rewrite E.
  - reflexivity.
  - apply SF64mul_square_opp.
Qed.

Lemma degenerate_guard_binary64 (l : Line float) :
  degenerate l = ltb (distSq l.(p1) l.(p2)) ZERO_TOLERANCE.
Proof.
  unfold degenerate, distSq. cbn [sub mul add ltb F64].
  now rewrite (square_sub_swap (x (p1 l)) (x (p2 l))),
              (square_sub_swap (y (p1 l)) (y (p2 l))).
Qed.

Lemma committed_crease_binary64 (k : Z) (baseGeom : SheetGeometry float)
    (foldLine : Line float) (geom : SheetGeometry float) (out : OutLine float) :
  check_and_commit k baseGeom foldLine = Some (geom, out) ->
  In foldLine geom.(lines) /\ degenerate foldLine = false /\
  forall p,
    distPointLine p foldLine = dist p (projection p foldLine) /\
    reflectPoint p foldLine =
      mkPoint (sub (mul (of_Z 2) (projection p foldLine).(x)) p.(x))
              (sub (mul (of_Z 2) (projection p foldLine).(y)) p.(y)).
Proof.
  intros H. pose proof (check_and_commit_fold_of _ _ _ H) as [_ Hin].
  apply check_and_commit_some in H. destruct H as (Hg & _).
  rewrite <- degenerate_guard_binary64 in Hg.
  split; [exact Hin|]. split; [exact Hg|]. intros p.
  rewrite distPointLine_branches, reflectPoint_branches, Hg. now split.
Qed.

(** C8, as the code has it.  In every arithmetic, a candidate fold line
    for which [distSq(p1, p2) < ZERO_TOLERANCE] holds is discarded by the
    pass that drew it (nothing is committed, nothing is written), the next
    pass runs on the remaining budget of the same loop, and no ["Z"]
    record in the file carries such a line.  Over the reals, every line
    stored in a committed sheet (rectangle edges, creases and their mirror
    images) has squared length at least [ZERO_TOLERANCE], so that
    [distPointLine] and [reflectPoint] take their main branch on it, never
    the degenerate fallback.  In binary64 this holds of the crease of
    every commit, as [reflectPoint] receives it, as it is stored and as
    its ["Z"] record carries it; it is not claimed of the mirror images
    that later folds store. *)
Theorem degenerate_fold_never_committed :
  (forall (num : Type) (A : Arith num) (T : Trig num) (G : Type)
          (rnd : Random num G),
     (forall k baseGeom foldLine,
        ltb (distSq foldLine.(p1) foldLine.(p2)) ZERO_TOLERANCE = true ->
        check_and_commit k baseGeom foldLine = None) /\
     (forall i sh rem tc g0,
        fst (sheet_attempt rnd i sh g0) = None ->
        retry (sheet_attempt rnd i sh) (S rem) tc g0 =
        retry (sheet_attempt rnd i sh) rem (S tc)
              (snd (sheet_attempt rnd i sh g0))) /\
     (forall n q g g' ok sheets file,
        sheets_phase rnd n q g = ((ok, sheets, file), g') ->
        forall k x1 y1 x2 y2, In (OutZ k x1 y1 x2 y2) file ->
          ltb (distSq (mkPoint x1 y1) (mkPoint x2 y2)) ZERO_TOLERANCE = false)) /\
  (forall (G : Type) (rnd : Random R G) n q g g' ok sheets file,
     RandomContract rnd ->
     sheets_phase rnd n q g = ((ok, sheets, file), g') ->
     forall geom l, In geom sheets -> In l geom.(lines) ->
       ZERO_TOLERANCE <= distSq l.(p1) l.(p2) /\
       forall p,
         distPointLine p l = dist p (foot p l) /\
         reflectPoint p l =
           mkPoint (2 * (foot p l).(x) - p.(x)) (2 * (foot p l).(y) - p.(y))) /\
  (forall (k : Z) (baseGeom : SheetGeometry float) (foldLine : Line float)
          (geom : SheetGeometry float) (out : OutLine float),
     check_and_commit k baseGeom foldLine = Some (geom, out) ->
     In foldLine geom.(lines) /\ degenerate foldLine = false /\
     forall p,
       distPointLine p foldLine = dist p (projection p foldLine) /\
       reflectPoint p foldLine =
         mkPoint (sub (mul (of_Z 2) (projection p foldLine).(x)) p.(x))
                 (sub (mul (of_Z 2) (projection p foldLine).(y)) p.(y))) /\
  (forall (T : Trig float) (G : Type) (rnd : Random float G)
          n q g g' ok sheets file,
     sheets_phase rnd n q g = ((ok, sheets, file), g') ->
     forall k x1 y1 x2 y2, In (OutZ k x1 y1 x2 y2) file ->
       degenerate (mkLine (mkPoint x1 y1) (mkPoint x2 y2)) = false).
Proof.
  split; [|split; [|split]].
  - intros num A T G rnd.
    split; [intros; now apply check_and_commit_degenerate|].
    split; [intros; now apply retry_continue|].
    intros n q g g' ok sheets file H. exact (sheets_phase_guarded _ _ _ _ H).
  - intros G rnd n q g g' ok sheets file HC H geom l Hg Hl.
    pose proof (sheets_phase_lines _ _ _ HC H geom l Hg Hl) as Hs.
    split; [now rewrite <- len_sq_distSq|].
    intros p. split; [now apply distPointLine_nondeg | now apply reflectPoint_nondeg].
  - apply committed_crease_binary64.
  - intros T G rnd n q g g' ok sheets file H k x1 y1 x2 y2 Hin.
    rewrite degenerate_guard_binary64.
    exact (sheets_phase_guarded _ _ _ _ H k x1 y1 x2 y2 Hin).
Qed.

(** ** Folding through, or close to, the centre of a circle *)

Lemma clear_zero : clear 0.
Proof. left. pose proof ZERO_TOLERANCE_pos. lra. Qed.

Lemma clear_far (d : R) : DANGER_EPS <= d -> clear d.
Proof. intros H. right. lra. Qed.

Lemma not_clear_in_band (d : R) : ZERO_TOLERANCE < d < DANGER_EPS -> ~ clear d.
Proof. intros [H1 H2] [H|H]; lra. Qed.

Lemma isSafeFold_through_centre (ctr : Point R) (rad : R) (l : Line R) :
  DANGER_EPS <= rad ->
  distPointLine ctr l = 0 ->
  isSafeFold l (mkSheet [ctr] [] [mkCircle ctr rad]) = true.
Proof.
  intros Hr Hd. apply isSafeFold_true_iff. cbn [points circles].
  split.
  - intros pt [<-|[]]. rewrite Hd. apply clear_zero.
  - intros c0 [<-|[]]. cbn [c r]. rewrite Hd. split; [apply clear_zero|].
    apply clear_far. rewrite Rabs_left1; [lra|].
    rewrite DANGER_EPS_R in Hr. lra.
Qed.

Lemma isSafeFold_near_centre (g : SheetGeometry R) (c0 : Circle R) (l : Line R) :
  In c0 g.(circles) ->
  distPointLine c0.(c) l = 2 / 100 ->
  isSafeFold l g = false.
Proof.
  intros Hin Hd.
  destruct (isSafeFold l g) eqn:E; [|reflexivity]. exfalso.
  apply isSafeFold_true_iff in E. destruct E as [_ Hc].
  destruct (Hc c0 Hin) as [Hclear _]. rewrite Hd in Hclear.
  revert Hclear. apply not_clear_in_band.
  rewrite ZERO_TOLERANCE_R, DANGER_EPS_R. lra.
Qed.

Lemma circle_eq_or_not (a b : Circle R) : a = b \/ a <> b.
Proof.
  destruct a as [[ax ay] ar], b as [[bx by_] br].
  destruct (Req_dec ax bx) as [->|H];
    [|right; intros E; apply H; now inversion E].
  destruct (Req_dec ay by_) as [->|H];
    [|right; intros E; apply H; now inversion E].
  destruct (Req_dec ar br) as [->|H];
    [now left|right; intros E; apply H; now inversion E].
Qed.

Lemma Rabs_zero_minus (a : R) : Rabs (0 - a) = Rabs a.
Proof. replace (0 - a) with (- a) by lra. apply Rabs_Ropp. Qed.

(** What a fold line through the centre of a stored circle still has to
    pass: the tangency test of that circle, which is a test on its radius,
    and the tests of every other feature. *)
Lemma isSafeFold_through_centre_iff (g : SheetGeometry R) (c0 : Circle R)
    (l : Line R) :
  In c0 g.(circles) ->
  distPointLine c0.(c) l = 0 ->
  (isSafeFold l g = true <->
     clear (Rabs c0.(r)) /\
     (forall pt, In pt g.(points) -> clear (distPointLine pt l)) /\
     (forall c1, In c1 g.(circles) -> c1 <> c0 ->
        clear (distPointLine c1.(c) l) /\
        clear (Rabs (distPointLine c1.(c) l - c1.(r))))).
Proof.
  intros Hin Hd. rewrite isSafeFold_true_iff. split.
  - intros [Hp Hc]. split.
    + destruct (Hc c0 Hin) as [_ H2]. now rewrite Hd, Rabs_zero_minus in H2.
    + split; [exact Hp|]. intros c1 H1 _. now apply Hc.
  - intros (Hr & Hp & Hc). split; [exact Hp|]. intros c1 H1.
    destruct (circle_eq_or_not c1 c0) as [->|Hne]; [|now apply Hc].
    rewrite Hd, Rabs_zero_minus. split; [apply clear_zero|exact Hr].
Qed.

(** The same in binary64, on the sheet of a circle. *)
Lemma abs_zero_minus_binary64 (a : float) :
  PrimFloat.abs (PrimFloat.sub (f64 0 1) a) = PrimFloat.abs a.
Proof.
  apply Prim2SF_inj. rewrite !abs_spec, sub_spec.
  change (Prim2SF (f64 0 1)) with (S754_zero false).
  destruct (Prim2SF a) as [s|s| |s m e]; try reflexivity.
  destruct s; reflexivity.
Qed.

Lemma isSafeFold_through_centre_binary64 (ctr : Point float) (rad : float)
    (l : Line float) :
  distPointLine ctr l = f64 0 1 ->
  isSafeFold l (mkSheet [ctr] [] [mkCircle ctr rad]) = negb (in_band (nabs rad)).
Proof.
  intros Hd. unfold isSafeFold. cbn [points circles existsb c r]. rewrite Hd.
  cbn [sub nabs F64]. rewrite abs_zero_minus_binary64.
  change (ltb ZERO_TOLERANCE (f64 0 1) && ltb (f64 0 1) DANGER_EPS)%bool
    with false.
  cbn [orb]. unfold in_band. cbn [nabs F64].
  destruct (ltb ZERO_TOLERANCE (PrimFloat.abs rad) &&
            ltb (PrimFloat.abs rad) DANGER_EPS)%bool; reflexivity.
Qed.

Lemma isSafeFold_near_centre_binary64 (g : SheetGeometry float)
    (c0 : Circle float) (l : Line float) :
  In c0 g.(circles) ->
  distPointLine c0.(c) l = f64 2 100 ->
  isSafeFold l g = false.
Proof.
  intros Hin Hd.
  destruct (isSafeFold l g) eqn:E; [|reflexivity]. exfalso.
  apply isSafeFold_in_band in E. destruct E as [_ Hc].
  destruct (Hc c0 Hin) as [Hb _]. rewrite Hd in Hb.
  vm_compute in Hb. discriminate.
Qed.

(** C7, as the code has it.  Over the reals: a fold line at distance 0
    from the centre of a stored circle is accepted by [isSafeFold] exactly
    when the radius of that circle is at most [ZERO_TOLERANCE] or at least
    [DANGER_EPS] (the tangency gap [|0 - r|] is tested too) and every
    other stored point and circle passes its own tests; so it is accepted
    on the sheet of a circle as the engine builds it (its centre as the
    only point, a radius of at least [DANGER_EPS]); and whatever the
    geometry, a fold line at distance 0.02 from the centre of one of its
    circles is rejected.  In binary64: on the sheet of a circle the fold
    line at distance 0 is accepted exactly when the radius does not test
    strictly between the thresholds, and whatever the geometry the fold
    line at distance 0.02 is rejected. *)
Theorem fold_near_circle_centre :
  ((forall (g : SheetGeometry R) (c0 : Circle R) (l : Line R),
      In c0 g.(circles) ->
      distPointLine c0.(c) l = 0 ->
      (isSafeFold l g = true <->
         clear (Rabs c0.(r)) /\
         (forall pt, In pt g.(points) -> clear (distPointLine pt l)) /\
         (forall c1, In c1 g.(circles) -> c1 <> c0 ->
            clear (distPointLine c1.(c) l) /\
            clear (Rabs (distPointLine c1.(c) l - c1.(r)))))) /\
   (forall (ctr : Point R) (rad : R) (l : Line R),
      DANGER_EPS <= rad ->
      distPointLine ctr l = 0 ->
      isSafeFold l (mkSheet [ctr] [] [mkCircle ctr rad]) = true) /\
   (forall (g : SheetGeometry R) (c0 : Circle R) (l : Line R),
      In c0 g.(circles) ->
      distPointLine c0.(c) l = 2 / 100 ->
      isSafeFold l g = false)) /\
  ((forall (ctr : Point float) (rad : float) (l : Line float),
      distPointLine ctr l = f64 0 1 ->
      isSafeFold l (mkSheet [ctr] [] [mkCircle ctr rad])
        = negb (in_band (nabs rad))) /\
   (forall (g : SheetGeometry float) (c0 : Circle float) (l : Line float),
      In c0 g.(circles) ->
      distPointLine c0.(c) l = f64 2 100 ->
      isSafeFold l g = false)).
Proof.
  split; [split; [|split]|split].
  - apply isSafeFold_through_centre_iff.
  - apply isSafeFold_through_centre.
  - apply isSafeFold_near_centre.
  - apply isSafeFold_through_centre_binary64.
  - apply isSafeFold_near_centre_binary64.
Qed.

(** ** Running the engine on the scripted stream *)

Lemma scripted_contract : RandomContract scripted.
Proof.
  split.
  - intros a b [|[z|v] s] Hab; cbn; try lia.
    destruct ((a <=? z)%Z && (z <=? b)%Z)%bool eqn:E; cbn; [|lia].
    apply andb_true_iff in E. destruct E as [E1 E2].
    apply Z.leb_le in E1, E2. lia.
  - intros a b [|[z|v] s] Hab; cbn; try lra.
    destruct (Rle_dec a v); [|cbn; lra]. destruct (Rle_dec v b); cbn; lra.
Qed.

Lemma script_real_in (a b v : R) (s : list Draw) :
  a <= v <= b -> script_real a b (DrawR v :: s) = (v, s).
Proof.
  intros [H1 H2]. unfold script_real.
  destruct (Rle_dec a v); [|lra]. destruct (Rle_dec v b); [reflexivity|lra].
Qed.

Lemma script_int_in (a b z : Z) (s : list Draw) :
  (a <= z <= b)%Z -> script_int a b (DrawZ z :: s) = (z, s).
Proof.
  intros [H1 H2]. unfold script_int.
  apply Z.leb_le in H1, H2. now rewrite H1, H2.
Qed.

(** Evaluation of the tests on integer literals met along a run. *)
Ltac script_step :=
  first
  [ rewrite script_real_in by lra
  | rewrite script_int_in by lia
  | match goal with
    | |- context [Z.eqb ?a ?b] =>
        let v := eval vm_compute in (Z.eqb a b) in
        match v with
        | true => change (Z.eqb a b) with true
        | false => change (Z.eqb a b) with false
        end
    end
  | progress cbv beta iota
  | progress cbn [andb orb negb empty points lines circles
                  of_Z add sub mul div nsqrt nabs ltb RArith
                  ncos nsin M_PI RTrig
                  scripted rng_call uniform_int_distribution
                  uniform_real_distribution script_call] ].

Ltac script_run :=
  unfold sheet_attempt, choose_fold_line, type_dist, coord_dist, size_dist,
    bind, ret;
  repeat script_step.

(** *** A run that commits a fold *)

Lemma through_centre_nondegenerate :
  ZERO_TOLERANCE <= distSq through_centre.(p1) through_centre.(p2).
Proof.
  rewrite ZERO_TOLERANCE_R. unfold distSq, through_centre. rarith. lra.
Qed.

Lemma through_centre_distance :
  distPointLine (mkPoint 0 0) through_centre = 0.
Proof.
  apply distPointLine_zero_iff.
  - rewrite len_sq_distSq. apply through_centre_nondegenerate.
  - exists (1 / 2). unfold through_centre. rarith. split; lra.
Qed.

Lemma sheet1_circle :
  sheet_attempt scripted 1 [no_geometry] fold_script
  = (Some (circle_sheet, OutK 0 0 2), skipn 4 fold_script).
Proof.
  unfold fold_script. script_run. reflexivity.
Qed.

Lemma commit_through_centre :
  check_and_commit 1 circle_sheet through_centre
  = Some (folded_circle_sheet, OutZ 1 0 (-1) 0 1).
Proof.
  unfold check_and_commit. rarith.
  pose proof through_centre_nondegenerate as Hn. apply Rltb_false in Hn.
  rewrite Hn.
  assert (Hs : isSafeFold through_centre circle_sheet = true).
  { apply isSafeFold_through_centre.
    - rewrite DANGER_EPS_R. lra.
    - apply through_centre_distance. }
  rewrite Hs. reflexivity.
Qed.

Lemma sheet2_fold :
  sheet_attempt scripted 2 [no_geometry; circle_sheet] (skipn 4 fold_script)
  = (Some (folded_circle_sheet, OutZ 1 0 (-1) 0 1), []).
Proof.
  unfold fold_script. cbn [skipn]. script_run.
  change (at_index [no_geometry; circle_sheet] 1 (no_geometry))
    with circle_sheet.
  change (mkLine (mkPoint 0 (-1)) (mkPoint 0 1)) with through_centre.
  now rewrite commit_through_centre.
Qed.

Lemma fold_run :
  sheets_phase scripted 2 0 fold_script
  = ((true, [no_geometry; circle_sheet; folded_circle_sheet],
      [Header 2 0; OutK 0 0 2; OutZ 1 0 (-1) 0 1]), []).
Proof.
  unfold sheets_phase. change (Z.to_nat 2) with 2%nat.
  cbn [sheets_loop]. unfold bind at 1.
  change MAX_TRIES with (S 99).
  erewrite retry_first by apply sheet1_circle. cbn [fst app].
  unfold bind at 1. change (1 + 1)%Z with 2%Z.
  erewrite retry_first by apply sheet2_fold. cbn [fst app].
  reflexivity.
Qed.

(** *** A run that exhausts the retry budget of sheet 2 *)

Lemma exhausted_sheet1 :
  sheet_attempt scripted 1 [no_geometry] []
  = (Some (corner_sheet, OutP (-10) (-10) (-10 + 1) (-10 + 1)), []).
Proof. reflexivity. Qed.

Lemma exhausted_sheet2 :
  sheet_attempt scripted 2 [no_geometry; corner_sheet] [] = (None, []).
Proof.
  change (sheet_attempt scripted 2 [no_geometry; corner_sheet] [])
    with (check_and_commit 1 corner_sheet
            (mkLine (mkPoint (-10) (-10)) (mkPoint (-10) (-10))),
          @nil Draw).
  rewrite check_and_commit_degenerate; [reflexivity|].
  rarith. apply Rltb_true.
  rewrite ZERO_TOLERANCE_R. unfold distSq. rarith. lra.
Qed.

Lemma exhausted_prefix :
  sheets_loop scripted 1 1 [no_geometry] [Header 2 0] []
  = ((true, [no_geometry; corner_sheet],
      [Header 2 0; OutP (-10) (-10) (-10 + 1) (-10 + 1)]), []).
Proof.
  cbn [sheets_loop]. unfold bind at 1.
  change MAX_TRIES with (S 99).
  erewrite retry_first by apply exhausted_sheet1. reflexivity.
Qed.

Lemma exhausted_retry :
  retry (sheet_attempt scripted 2 [no_geometry; corner_sheet]) MAX_TRIES 0 []
  = ((None, MAX_TRIES), []).
Proof. apply retry_stuck, exhausted_sheet2. Qed.

Lemma exhausted_run :
  generate_test scripted true 2 0 []
  = ((false, [Header 2 0; OutP (-10) (-10) (-10 + 1) (-10 + 1)]), []).
Proof.
  unfold generate_test, sheets_phase. cbn [negb]. unfold bind at 1.
  change (Z.to_nat 2) with (1 + S 0)%nat.
  erewrite sheets_loop_exhaust;
    [reflexivity | apply exhausted_prefix | apply exhausted_retry].
Qed.

(** ** Concrete instances *)

Lemma axis_line_nondegenerate :
  ZERO_TOLERANCE <= distSq axis_line.(p1) axis_line.(p2).
Proof. rewrite ZERO_TOLERANCE_R. unfold distSq, axis_line. rarith. lra. Qed.

Lemma Rabs_neg_eq (a : R) : 0 <= a -> Rabs (- a) = a.
Proof. intros H. rewrite Rabs_Ropp. now apply Rabs_pos_eq. Qed.

Lemma near_axis_distance :
  distPointLine near_axis_point axis_line = 1 / 2000000000.
Proof.
  rewrite distPointLine_cross
    by (rewrite len_sq_distSq; apply axis_line_nondegenerate).
  replace (len_sq axis_line) with 1 by (unfold len_sq, axis_line; rarith; lra).
  rewrite sqrt_1. unfold near_axis_point, axis_line. rarith.
  replace ((0 - 0) * (0 - 0) - (1 / 2000000000 - 0) * (1 - 0))
    with (- (1 / 2000000000)) by lra.
  rewrite Rabs_neg_eq by lra. lra.
Qed.

Lemma near_axis_off_line : ~ onLine near_axis_point axis_line.
Proof.
  intros (t & Hx & Hy). unfold near_axis_point, axis_line in *. rarith. lra.
Qed.

Lemma near_centre_nondegenerate :
  ZERO_TOLERANCE <= distSq near_centre.(p1) near_centre.(p2).
Proof. rewrite ZERO_TOLERANCE_R. unfold distSq, near_centre. rarith. lra. Qed.

Lemma near_centre_distance :
  distPointLine (mkPoint 0 0) near_centre = 2 / 100.
Proof.
  rewrite distPointLine_cross
    by (rewrite len_sq_distSq; apply near_centre_nondegenerate).
  replace (len_sq near_centre) with 1 by (unfold len_sq, near_centre; rarith; lra).
  rewrite sqrt_1. unfold near_centre. rarith.
  replace ((0 - 2 / 100) * (1 - 0) - (0 - 0) * (2 / 100 - 2 / 100))
    with (- (2 / 100)) by lra.
  rewrite Rabs_neg_eq by lra. lra.
Qed.

(** C3 on the axis: the point (3, 4) comes back. *)
Lemma reflectPoint_involutive_witness :
  reflectPoint (reflectPoint (mkPoint 3 4) axis_line) axis_line = mkPoint 3 4.
Proof.
  apply (@reflectPoint_involutive (mkPoint 3 4) axis_line).
  rewrite ZERO_TOLERANCE_R. unfold distSq, axis_line. rarith. lra.
Defined.

(** C4 as stated fails: a point 5e-10 off the axis is within
    [ZERO_TOLERANCE] of it and does not lie on it. *)
Lemma distPointLine_within_tolerance_off_line :
  ZERO_TOLERANCE <= distSq axis_line.(p1) axis_line.(p2) /\
  ~ (distPointLine near_axis_point axis_line <= ZERO_TOLERANCE <->
     onLine near_axis_point axis_line).
Proof.
  split; [apply axis_line_nondegenerate|].
  intros [H _]. apply near_axis_off_line, H.
  rewrite near_axis_distance, ZERO_TOLERANCE_R. lra.
Qed.

(** C4, amended, on the axis: the point (5, 0), beyond the second
    endpoint, is at distance zero. *)
Lemma distPointLine_zero_iff_onLine_witness :
  distPointLine (mkPoint 5 0) axis_line = 0.
Proof.
  apply (proj2 (proj1 (proj2 (proj1 distPointLine_zero_iff_onLine
                  (mkPoint 5 0) axis_line
                  ltac:(rewrite ZERO_TOLERANCE_R; unfold distSq, axis_line;
                        rarith; lra))))).
  exists 5. unfold axis_line. rarith. split; lra.
Defined.

(** C5 on the run that folds the circle sheet. *)
Lemma fold_commit_doubles_witness :
  (1 <= 1 < Z.of_nat 2)%Z /\
  exists src new,
    nth_error [no_geometry; circle_sheet; folded_circle_sheet] (Z.to_nat 1)
      = Some src /\
    nth_error [no_geometry; circle_sheet; folded_circle_sheet] 2 = Some new /\
    folded_from src new (mkLine (mkPoint 0 (-1)) (mkPoint 0 1)) /\
    length new.(points) = (2 * length src.(points))%nat /\
    length new.(lines) = (2 * length src.(lines) + 1)%nat /\
    length new.(circles) = (2 * length src.(circles))%nat.
Proof.
  exact (proj2 (@fold_commit_doubles R RArith RTrig _ scripted 2 0 fold_script
                  _ _ _ _ (int_in_range scripted_contract) fold_run)
           2%nat 1%Z 0 (-1) 0 1 eq_refl).
Defined.

(** C6 as stated fails: sheet 2 exhausts its [MAX_TRIES] passes,
    [generate_test] returns [false], and the file holds two lines. *)
Lemma exhaustion_leaves_partial_file :
  retry (sheet_attempt scripted 2 [no_geometry; corner_sheet]) MAX_TRIES 0 []
    = ((None, MAX_TRIES), []) /\
  fst (fst (generate_test scripted true 2 0 [])) = false /\
  snd (fst (generate_test scripted true 2 0 [])) <> [].
Proof.
  split; [apply exhausted_retry|]. rewrite exhausted_run. cbn [fst snd].
  split; [reflexivity|discriminate].
Qed.

(** C6, amended, on the same run. *)
Lemma exhaustion_returns_false_witness :
  MAX_TRIES = MAX_TRIES /\
  (forall j, (j < MAX_TRIES)%nat ->
     fst (sheet_attempt scripted (1 + Z.of_nat 1) [no_geometry; corner_sheet]
            (after_attempts
               (sheet_attempt scripted (1 + Z.of_nat 1)
                  [no_geometry; corner_sheet]) j []))
       = None) /\
  generate_test scripted true 2 0 []
    = ((false, [Header 2 0; OutP (-10) (-10) (-10 + 1) (-10 + 1)]), []) /\
  exists recs,
    [Header 2 0; OutP (-10) (-10) (-10 + 1) (-10 + 1)] = Header 2 0 :: recs /\
    length recs = 1%nat.
Proof.
  exact (proj1 (@exhaustion_returns_false R RArith RTrig _ scripted 2 0 [])
           1%nat _ _ _ _ _ ltac:(cbn; lia) exhausted_prefix exhausted_retry).
Defined.

(** *** Folds through the centre that are rejected *)

Lemma small_radius_in_band : ~ clear (Rabs (1 / 100)).
Proof.
  apply not_clear_in_band. rewrite Rabs_pos_eq by lra.
  rewrite ZERO_TOLERANCE_R, DANGER_EPS_R. lra.
Qed.

Lemma small_circle_rejected :
  isSafeFold through_centre small_circle_sheet = false.
Proof.
  destruct (isSafeFold through_centre small_circle_sheet) eqn:E; [|reflexivity].
  exfalso. apply small_radius_in_band.
  eapply (proj1 (isSafeFold_through_centre_iff small_circle_sheet
                   (mkCircle (mkPoint 0 0) (1 / 100)) through_centre
                   (or_introl eq_refl) through_centre_distance)).
  exact E.
Qed.

Lemma offset_crease_nondegenerate :
  ZERO_TOLERANCE <= len_sq offset_crease.
Proof. rewrite ZERO_TOLERANCE_R. unfold len_sq, offset_crease. rarith. lra. Qed.

Lemma offset_crease_distance :
  distPointLine (mkPoint 0 0) offset_crease = 505 / 10000.
Proof.
  rewrite distPointLine_cross by apply offset_crease_nondegenerate.
  replace (len_sq offset_crease) with 1
    by (unfold len_sq, offset_crease; rarith; lra).
  rewrite sqrt_1. unfold offset_crease. rarith.
  replace ((0 - 505 / 10000) * (1 - 0) - (0 - 0) * (505 / 10000 - 505 / 10000))
    with (- (505 / 10000)) by lra.
  rewrite Rabs_neg_eq by lra. lra.
Qed.

Lemma mirrored_centre :
  reflectPoint (mkPoint 0 0) offset_crease = mkPoint (101 / 1000) 0.
Proof.
  rewrite reflectPoint_nondeg by apply offset_crease_nondegenerate.
  unfold foot, param.
  replace (len_sq offset_crease) with 1
    by (unfold len_sq, offset_crease; rarith; lra).
  unfold offset_crease. rarith. apply point_eq; rarith; lra.
Qed.

Lemma commit_offset_crease :
  check_and_commit 1 circle_sheet offset_crease
  = Some (mirrored_circle_sheet, OutZ 1 (505 / 10000) 0 (505 / 10000) 1).
Proof.
  unfold check_and_commit. rarith.
  pose proof offset_crease_nondegenerate as Hn. rewrite len_sq_distSq in Hn.
  apply Rltb_false in Hn. rewrite Hn.
  assert (Hs : isSafeFold offset_crease circle_sheet = true).
  { apply isSafeFold_true_iff. cbn [points circles circle_sheet]. split.
    - intros pt [<-|[]]. rewrite offset_crease_distance.
      apply clear_far. rewrite DANGER_EPS_R. lra.
    - intros c0 [<-|[]]. cbn [c r]. rewrite offset_crease_distance. split.
      + apply clear_far. rewrite DANGER_EPS_R. lra.
      + apply clear_far. rewrite Rabs_left1 by lra. rewrite DANGER_EPS_R. lra. }
  rewrite Hs. reflexivity.
Qed.

Lemma shallow_line_nondegenerate : ZERO_TOLERANCE <= len_sq shallow_line.
Proof. rewrite ZERO_TOLERANCE_R. unfold len_sq, shallow_line. rarith. lra. Qed.

Lemma shallow_line_through_centre :
  distPointLine (mkPoint 0 0) shallow_line = 0.
Proof.
  apply distPointLine_zero_iff; [apply shallow_line_nondegenerate|].
  exists 0. unfold shallow_line. rarith. split; lra.
Qed.

Lemma shallow_line_near_mirror :
  distPointLine (mkPoint (101 / 1000) 0) shallow_line = 2 / 100.
Proof.
  rewrite distPointLine_cross by apply shallow_line_nondegenerate.
  replace (len_sq shallow_line) with (101 * 101)
    by (unfold len_sq, shallow_line; rarith; lra).
  rewrite sqrt_square by lra. unfold shallow_line. rarith.
  replace ((101 / 1000 - 0) * (20 - 0) - (0 - 0) * (99 - 0))
    with (202 / 100) by lra.
  rewrite Rabs_pos_eq by lra. lra.
Qed.

Lemma mirrored_circle_rejected :
  isSafeFold shallow_line mirrored_circle_sheet = false.
Proof.
  destruct (isSafeFold shallow_line mirrored_circle_sheet) eqn:E; [|reflexivity].
  exfalso. apply isSafeFold_true_iff in E. destruct E as [Hp _].
  assert (Hin : In (mkPoint (101 / 1000) 0) mirrored_circle_sheet.(points)).
  { rewrite <- mirrored_centre. right. left. reflexivity. }
  apply Hp in Hin. rewrite shallow_line_near_mirror in Hin.
  revert Hin. apply not_clear_in_band.
  rewrite ZERO_TOLERANCE_R, DANGER_EPS_R. lra.
Qed.

(** C7 as stated fails.  A fold line through the centre of a circle of
    radius 0.01 is rejected, over the reals and in binary64: the line is
    nearly tangent.  And on the circle sheet that the engine has folded
    across [offset_crease], a fold line through the centre of the first
    circle is rejected: it passes 0.02 from the mirrored centre. *)
Lemma fold_through_centre_rejected :
  (In (mkCircle (mkPoint 0 0) (1 / 100)) small_circle_sheet.(circles) /\
   distPointLine (mkPoint 0 0) through_centre = 0 /\
   isSafeFold through_centre small_circle_sheet = false) /\
  (distPointLine (mkPoint (f64 0 1) (f64 0 1)) through_centre_f64 = f64 0 1 /\
   isSafeFold through_centre_f64 small_circle_sheet_f64 = false) /\
  (check_and_commit 1 circle_sheet offset_crease
     = Some (mirrored_circle_sheet, OutZ 1 (505 / 10000) 0 (505 / 10000) 1) /\
   In (mkCircle (mkPoint 0 0) 2) mirrored_circle_sheet.(circles) /\
   distPointLine (mkPoint 0 0) shallow_line = 0 /\
   isSafeFold shallow_line mirrored_circle_sheet = false).
Proof.
  split; [|split].
  - split; [left; reflexivity|].
    split; [apply through_centre_distance|apply small_circle_rejected].
  - split; vm_compute; reflexivity.
  - split; [apply commit_offset_crease|].
    split; [left; reflexivity|].
    split; [apply shallow_line_through_centre|apply mirrored_circle_rejected].
Qed.

(** C7, amended, on the circle of radius 2 around the origin, over the
    reals and in binary64. *)
Lemma fold_near_circle_centre_witness :
  isSafeFold through_centre circle_sheet = true /\
  isSafeFold near_centre circle_sheet = false /\
  isSafeFold through_centre_f64 circle_sheet_f64 = true /\
  isSafeFold near_centre_f64 circle_sheet_f64 = false.
Proof.
  destruct fold_near_circle_centre as [(_ & Hacc & Hrej) (Hacc64 & Hrej64)].
  split; [|split; [|split]].
  - apply (Hacc (mkPoint 0 0) 2 through_centre).
    + rewrite DANGER_EPS_R. lra.
    + apply through_centre_distance.
  - apply (Hrej circle_sheet (mkCircle (mkPoint 0 0) 2) near_centre).
    + left. reflexivity.
    + apply near_centre_distance.
  - apply (Hacc64 (mkPoint (f64 0 1) (f64 0 1)) (f64 2 1) through_centre_f64).
    vm_compute. reflexivity.
  - apply (Hrej64 circle_sheet_f64
             (mkCircle (mkPoint (f64 0 1) (f64 0 1)) (f64 2 1)) near_centre_f64).
    + left. reflexivity.
    + vm_compute. reflexivity.
Defined.

(** C8, amended, on the run that folds the circle sheet: the emitted fold
    line passes the guard and the stored one is not degenerate; and on
    the same fold in binary64. *)
Lemma degenerate_fold_never_committed_witness :
  Rltb (distSq (mkPoint 0 (-1)) (mkPoint 0 1)) ZERO_TOLERANCE = false /\
  ZERO_TOLERANCE <= distSq through_centre.(p1) through_centre.(p2) /\
  degenerate through_centre_f64 = false.
Proof.
  destruct degenerate_fold_never_committed as (Hgen & Hreal & Hf64 & _).
  destruct (Hgen R RArith RTrig _ scripted) as (_ & _ & Hfile).
  split; [|split].
  - apply (Hfile _ _ _ _ _ _ _ fold_run 1%Z).
    right. right. left. reflexivity.
  - apply (Hreal _ scripted _ _ _ _ _ _ _ scripted_contract fold_run
             folded_circle_sheet through_centre).
    + right. right. left. reflexivity.
    + left. reflexivity.
  - apply (Hf64 1%Z circle_sheet_f64 through_centre_f64
             (fold_of circle_sheet_f64 through_centre_f64)
             (OutZ 1 (f64 0 1) (f64 (-1) 1) (f64 0 1) (f64 1 1))).
    vm_compute. reflexivity.
Defined.

(** C9 on the same run: the mirrored circle of sheet 2 has radius 2. *)
Lemma committed_circle_radius_witness :
  1 <= (mkCircle (reflectPoint (mkPoint 0 0) through_centre) 2).(r) <= 5 /\
  DANGER_EPS < (mkCircle (reflectPoint (mkPoint 0 0) through_centre) 2).(r).
Proof.
  apply (proj1 (committed_circle_radius _ _ _ scripted_contract fold_run)
           folded_circle_sheet).
  - right. right. left. reflexivity.
  - right. left. reflexivity.
Defined.

(** C10 on the scripted stream: the empty sheet has neither points nor
    circles. *)
Lemma strategy_fallback_witness :
  choose_fold_line scripted 1 (no_geometry) = random_line scripted /\
  choose_fold_line scripted 2 (no_geometry) = random_line scripted /\
  choose_query_point scripted 1 (no_geometry) = random_point scripted.
Proof.
  pose proof (@strategy_fallback R RArith RTrig _ scripted) as (_ & H1 & H2 & H3).
  split; [apply H1; reflexivity|].
  split; [apply H2; reflexivity|apply H3; reflexivity].
Defined.

(** ** The same inputs in binary64

    The definitions above, run in the arithmetic of the program. *)

Example DANGER_EPS_binary64 :
  PrimFloat.eqb (DANGER_EPS (A := F64)) 0x1.999999999999ap-5%float = true.
Proof. vm_compute. reflexivity. Qed.

Example ZERO_TOLERANCE_binary64 :
  PrimFloat.eqb (ZERO_TOLERANCE (A := F64)) 0x1.12e0be826d695p-30%float = true.
Proof. vm_compute. reflexivity. Qed.

Example fold_through_centre_binary64 :
  isSafeFold through_centre_f64 circle_sheet_f64 = true.
Proof. vm_compute. reflexivity. Qed.

Example fold_near_centre_binary64 :
  isSafeFold near_centre_f64 circle_sheet_f64 = false.
Proof. vm_compute. reflexivity. Qed.

(** A query at a corner of the box is accepted; one 0.02 above the
    middle of its lower edge is rejected. *)
Example corner_query_binary64 :
  isSafePoint (mkPoint (f64 0 1) (f64 0 1)) unit_box_f64 = true /\
  isSafePoint (mkPoint (f64 1 2) (f64 2 100)) unit_box_f64 = false.
Proof. split; vm_compute; reflexivity. Qed.

Example near_axis_within_tolerance_binary64 :
  PrimFloat.leb (distPointLine near_axis_point_f64 axis_line_f64)
                (ZERO_TOLERANCE (A := F64)) = true /\
  PrimFloat.ltb (f64 0 1) (distPointLine near_axis_point_f64 axis_line_f64) = true.
Proof. split; vm_compute; reflexivity. Qed.

(** In doubles the double reflection returns to the point only up to
    rounding: here it misses in both coordinates, by less than
    [ZERO_TOLERANCE]. *)
Example reflect_twice_binary64 :
  let p := tenths_point_f64 in
  let p' := reflectPoint (reflectPoint p slanted_line_f64) slanted_line_f64 in
  PrimFloat.eqb p'.(x) p.(x) = false /\
  PrimFloat.eqb p'.(y) p.(y) = false /\
  PrimFloat.ltb (PrimFloat.abs (PrimFloat.sub p'.(x) p.(x))) (ZERO_TOLERANCE (A := F64)) = true /\
  PrimFloat.ltb (PrimFloat.abs (PrimFloat.sub p'.(y) p.(y))) (ZERO_TOLERANCE (A := F64)) = true.
Proof. repeat split; vm_compute; reflexivity. Qed.

(** *** A mirrored crease that rounding makes degenerate *)

Lemma knife_edge_sheets (T : Trig float) :
  sheets_phase (T := T) scripted_f64 3 1 knife_edge_script =
  ((true,
    [no_geometry; circle_sheet_f64; once_folded_f64; twice_folded_f64],
    [Header 3 1;
     OutK (f64 0 1) (f64 0 1) (f64 2 1);
     OutZ 1 (f64 0 1) (f64 0 1) knife_edge_f64 (f64 0 1);
     OutZ 2 (f64 0 1) (f64 0 1) (f64 2 1) (f64 3 1)]),
   [Draw64Z 3; Draw64Z 0; Draw64F (f64 (-2476) 1300); Draw64F (f64 6010 1300)]).
Proof. vm_compute. reflexivity. Qed.

Lemma knife_edge_run (T : Trig float) :
  generate_test (T := T) scripted_f64 true 3 1 knife_edge_script =
  ((true,
    [Header 3 1;
     OutK (f64 0 1) (f64 0 1) (f64 2 1);
     OutZ 1 (f64 0 1) (f64 0 1) knife_edge_f64 (f64 0 1);
     OutZ 2 (f64 0 1) (f64 0 1) (f64 2 1) (f64 3 1);
     OutQ 3 probe_f64.(x) probe_f64.(y)]), []).
Proof. vm_compute. reflexivity. Qed.

(** C8 as stated fails in binary64.  The engine commits a crease whose
    squared length is exactly [ZERO_TOLERANCE] (the guard lets it pass)
    and then folds that sheet across a second crease.  Sheet 3 stores the
    mirror image of the first crease, and rounding has made its squared
    length smaller than [ZERO_TOLERANCE]: on this stored line
    [distPointLine] takes the degenerate fallback.  For the query at
    [probe_f64] it returns the distance to the first endpoint, outside
    the band, where the distance to the projection is inside it, and the
    query is written to the file. *)
Lemma mirrored_crease_takes_fallback :
  (forall T : Trig float,
     sheets_phase (T := T) scripted_f64 3 1 knife_edge_script =
     ((true,
       [no_geometry; circle_sheet_f64; once_folded_f64; twice_folded_f64],
       [Header 3 1;
        OutK (f64 0 1) (f64 0 1) (f64 2 1);
        OutZ 1 (f64 0 1) (f64 0 1) knife_edge_f64 (f64 0 1);
        OutZ 2 (f64 0 1) (f64 0 1) (f64 2 1) (f64 3 1)]),
      [Draw64Z 3; Draw64Z 0; Draw64F (f64 (-2476) 1300);
       Draw64F (f64 6010 1300)])) /\
  distSq short_crease_f64.(p1) short_crease_f64.(p2) = ZERO_TOLERANCE /\
  degenerate short_crease_f64 = false /\
  In mirrored_crease_f64 twice_folded_f64.(lines) /\
  degenerate mirrored_crease_f64 = true /\
  distPointLine probe_f64 mirrored_crease_f64
    = dist probe_f64 mirrored_crease_f64.(p1) /\
  in_band (distPointLine probe_f64 mirrored_crease_f64) = false /\
  in_band (dist probe_f64 (projection probe_f64 mirrored_crease_f64)) = true /\
  (forall T : Trig float,
     generate_test (T := T) scripted_f64 true 3 1 knife_edge_script =
     ((true,
       [Header 3 1;
        OutK (f64 0 1) (f64 0 1) (f64 2 1);
        OutZ 1 (f64 0 1) (f64 0 1) knife_edge_f64 (f64 0 1);
        OutZ 2 (f64 0 1) (f64 0 1) (f64 2 1) (f64 3 1);
        OutQ 3 probe_f64.(x) probe_f64.(y)]), [])).
Proof.
  split; [exact knife_edge_sheets|].
  split; [vm_compute; reflexivity|].
  split; [vm_compute; reflexivity|].
  split; [right; left; reflexivity|].
  split; [vm_compute; reflexivity|].
  split; [vm_compute; reflexivity|].
  split; [vm_compute; reflexivity|].
  split; [vm_compute; reflexivity|].
  exact knife_edge_run.
Qed.

(** * Further properties of the geometry, over the reals *)

Lemma distSq_sym (a b : Point R) : distSq a b = distSq b a.
Proof. unfold distSq. rarith. ring. Qed.

Lemma dist_nonneg (a b : Point R) : 0 <= dist a b.
Proof. unfold dist. rarith. apply sqrt_pos. Qed.

Lemma dist_sqr (a b : Point R) : dist a b * dist a b = distSq a b.
Proof. unfold dist. rarith. apply sqrt_sqrt, distSq_nonneg. Qed.

(** X1.  [dist] is symmetric, never negative, zero exactly between equal
    points, and its square is [distSq]. *)
Theorem dist_symmetric_definite (a b : Point R) :
  dist a b = dist b a /\
  0 <= dist a b /\
  (dist a b = 0 <-> a = b) /\
  dist a b * dist a b = distSq a b.
Proof.
  split; [unfold dist; now rewrite distSq_sym|].
  split; [apply dist_nonneg|].
  split; [apply dist_zero_iff|apply dist_sqr].
Qed.

(** X2.  [reflectPoint] across any line, degenerate or not, keeps the distance
    between two points. *)
Theorem reflectPoint_keeps_distances (a b : Point R) (l : Line R) :
  distSq (reflectPoint a l) (reflectPoint b l) = distSq a b /\
  dist (reflectPoint a l) (reflectPoint b l) = dist a b.
Proof.
  split; [apply reflectPoint_isometry|].
  unfold dist. now rewrite reflectPoint_isometry.
Qed.

Lemma reflectPoint_fixed_iff (p : Point R) (l : Line R) :
  ZERO_TOLERANCE <= len_sq l ->
  (reflectPoint p l = p <-> onLine p l).
Proof.
  intros H. pose proof ZERO_TOLERANCE_pos as Hz.
  rewrite reflectPoint_nondeg by exact H. split.
  - intros E. assert (Hf : foot p l = p).
    { apply point_eq.
      - apply (f_equal (@x R)) in E. cbn [x] in E. lra.
      - apply (f_equal (@y R)) in E. cbn [y] in E. lra. }
    rewrite <- Hf. apply foot_onLine.
  - intros Ho. rewrite (onLine_foot (p := p) (l := l)) by (lra || exact Ho).
    apply point_eq; cbn [x y]; lra.
Qed.

(** X3.  For a line that is not degenerate, the points [reflectPoint] leaves in
    place are exactly the points of the infinite line. *)
Theorem reflectPoint_fixes_exactly_the_line (p : Point R) (l : Line R) :
  ZERO_TOLERANCE <= distSq l.(p1) l.(p2) ->
  (reflectPoint p l = p <-> onLine p l).
Proof. rewrite <- len_sq_distSq. apply reflectPoint_fixed_iff. Qed.

Lemma foot_reflectPoint (p : Point R) (l : Line R) :
  ZERO_TOLERANCE <= len_sq l -> foot (reflectPoint p l) l = foot p l.
Proof.
  intros H. pose proof (len_sq_nonzero H) as Hl.
  rewrite reflectPoint_nondeg by exact H.
  unfold foot, param.
  destruct p as [px py], l as [[ax ay] [bx by_]].
  unfold len_sq in *. rarith.
  apply point_eq; rarith; field; exact Hl.
Qed.

Lemma distPointLine_reflectPoint (p : Point R) (l : Line R) :
  ZERO_TOLERANCE <= len_sq l ->
  distPointLine (reflectPoint p l) l = distPointLine p l.
Proof.
  intros H. rewrite !distPointLine_nondeg by exact H.
  rewrite foot_reflectPoint by exact H.
  rewrite reflectPoint_nondeg by exact H.
  unfold dist. f_equal. unfold distSq. rarith. ring.
Qed.

Lemma dist_to_reflection (p : Point R) (l : Line R) :
  ZERO_TOLERANCE <= len_sq l ->
  dist p (reflectPoint p l) = 2 * distPointLine p l.
Proof.
  intros H. rewrite distPointLine_nondeg by exact H.
  rewrite reflectPoint_nondeg by exact H.
  unfold dist. rarith.
  replace (distSq p (mkPoint (2 * x (foot p l) - x p) (2 * y (foot p l) - y p)))
    with (2 * 2 * distSq p (foot p l)) by (unfold distSq; rarith; ring).
  rewrite sqrt_mult_alt by lra. now rewrite sqrt_square by lra.
Qed.

(** X4.  For a line that is not degenerate, a point and its mirror image are
    at the same distance from the line, and twice that distance apart. *)
Theorem reflection_mirrors_distance (p : Point R) (l : Line R) :
  ZERO_TOLERANCE <= distSq l.(p1) l.(p2) ->
  distPointLine (reflectPoint p l) l = distPointLine p l /\
  dist p (reflectPoint p l) = 2 * distPointLine p l.
Proof.
  rewrite <- len_sq_distSq. intros H.
  split; [now apply distPointLine_reflectPoint | now apply dist_to_reflection].
Qed.

(** X5.  For a line that is not degenerate, [distPointLine p l] is the least
    distance from [p] to a point of the infinite line, and the foot of
    the projection is a point of the line where it is reached. *)
Theorem distPointLine_is_least_distance (p : Point R) (l : Line R) :
  ZERO_TOLERANCE <= distSq l.(p1) l.(p2) ->
  (forall q, onLine q l -> distPointLine p l <= dist p q) /\
  onLine (foot p l) l /\
  dist p (foot p l) = distPointLine p l.
Proof.
  rewrite <- len_sq_distSq. intros H.
  rewrite distPointLine_nondeg by exact H.
  split; [|split; [apply foot_onLine|reflexivity]].
  intros q Hq. unfold dist. rarith. apply sqrt_le_1_alt.
  rewrite (distSq_pythagoras p (len_sq_nonzero H) Hq).
  pose proof (distSq_nonneg (foot p l) q). lra.
Qed.

Lemma len_sq_swap (l : Line R) : len_sq (mkLine l.(p2) l.(p1)) = len_sq l.
Proof. unfold len_sq. rarith. ring. Qed.

Lemma foot_swap (p : Point R) (l : Line R) :
  len_sq l <> 0 -> foot p (mkLine l.(p2) l.(p1)) = foot p l.
Proof.
  intros Hl. unfold foot, param.
  destruct p as [px py], l as [[ax ay] [bx by_]].
  unfold len_sq in *. rarith.
  apply point_eq; rarith; field; lra.
Qed.

Lemma distPointLine_swap (p : Point R) (l : Line R) :
  ZERO_TOLERANCE <= len_sq l ->
  distPointLine p (mkLine l.(p2) l.(p1)) = distPointLine p l.
Proof.
  intros H. rewrite !distPointLine_nondeg by (rewrite ?len_sq_swap; exact H).
  now rewrite foot_swap by now apply len_sq_nonzero.
Qed.

Lemma bool_eq_iff (a b : bool) : (a = true <-> b = true) -> a = b.
Proof. destruct a, b; intros [H1 H2]; auto; (now rewrite H1) || (now rewrite H2). Qed.

(** X6.  For a line that is not degenerate, the order of its two points does
    not matter: distance, mirror image and the verdict of [isSafeFold]
    are the same for the line taken from [p2] to [p1]. *)
Theorem line_orientation_irrelevant (l : Line R) :
  ZERO_TOLERANCE <= distSq l.(p1) l.(p2) ->
  (forall p, distPointLine p (mkLine l.(p2) l.(p1)) = distPointLine p l) /\
  (forall p, reflectPoint p (mkLine l.(p2) l.(p1)) = reflectPoint p l) /\
  (forall g, isSafeFold (mkLine l.(p2) l.(p1)) g = isSafeFold l g).
Proof.
  rewrite <- len_sq_distSq. intros H.
  split; [intros p; now apply distPointLine_swap|]. split.
  - intros p. rewrite !reflectPoint_nondeg by (rewrite ?len_sq_swap; exact H).
    now rewrite foot_swap by now apply len_sq_nonzero.
  - intros g. apply bool_eq_iff. rewrite !isSafeFold_true_iff.
    split; intros [Hp Hc]; split; intros a Ha.
    + rewrite <- distPointLine_swap by exact H. auto.
    + rewrite <- distPointLine_swap by exact H. auto.
    + rewrite distPointLine_swap by exact H. auto.
    + rewrite distPointLine_swap by exact H. auto.
Qed.

(** * Further properties of the safety oracle *)

(** X7.  In every arithmetic, both verdicts split over a union of features:
    a point or a fold line is safe for the features of two geometries
    taken together exactly when it is safe for each; the empty geometry
    accepts everything. *)
Theorem oracle_splits_over_union (num : Type) (A : Arith num)
    (p : Point num) (l : Line num) (g1 g2 : SheetGeometry num) :
  isSafePoint p (mkSheet (g1.(points) ++ g2.(points))
                         (g1.(lines) ++ g2.(lines))
                         (g1.(circles) ++ g2.(circles)))
    = (isSafePoint p g1 && isSafePoint p g2)%bool /\
  isSafeFold l (mkSheet (g1.(points) ++ g2.(points))
                        (g1.(lines) ++ g2.(lines))
                        (g1.(circles) ++ g2.(circles)))
    = (isSafeFold l g1 && isSafeFold l g2)%bool /\
  isSafePoint p (mkSheet [] [] []) = true /\
  isSafeFold l (mkSheet [] [] []) = true.
Proof.
  repeat split; unfold isSafePoint, isSafeFold; cbn [points lines circles];
    rewrite ?existsb_app;
    repeat match goal with
           | |- context [existsb ?f ?v] => destruct (existsb f v)
           end; reflexivity.
Qed.

Lemma line_eta (l : Line R) : mkLine l.(p1) l.(p2) = l.
Proof. now destruct l. Qed.

Lemma onLine_p1 (l : Line R) : onLine l.(p1) l.
Proof. exists 0. split; lra. Qed.

Lemma onLine_p2 (l : Line R) : onLine l.(p2) l.
Proof. exists 1. split; lra. Qed.

Lemma commit_stays_safe (k : Z) (baseGeom : SheetGeometry R) (foldLine : Line R)
    (geom : SheetGeometry R) (out : OutLine R) :
  check_and_commit k baseGeom foldLine = Some (geom, out) ->
  isSafeFold foldLine geom = true.
Proof.
  intros H. pose proof (check_and_commit_nondegenerate _ _ _ H) as Hnd.
  rewrite <- len_sq_distSq in Hnd.
  apply check_and_commit_some in H.
  destruct H as (_ & Hsafe & (Hp & _ & Hc) & _).
  apply isSafeFold_true_iff in Hsafe. destruct Hsafe as [Sp Sc].
  apply isSafeFold_true_iff. rewrite Hp, Hc. split.
  - intros pt Hin. apply in_app_or in Hin. destruct Hin as [Hin|Hin]; [auto|].
    apply in_map_iff in Hin. destruct Hin as (p0 & <- & H0).
    rewrite distPointLine_reflectPoint by exact Hnd. auto.
  - intros c0 Hin. apply in_app_or in Hin. destruct Hin as [Hin|Hin]; [auto|].
    apply in_map_iff in Hin. destruct Hin as (c1 & <- & H1). cbn [c r].
    rewrite distPointLine_reflectPoint by exact Hnd. auto.
Qed.

(** X8.  Over the reals, a fold line that is committed is safe not only for
    the source sheet it was checked against but also for the sheet the
    fold produces: the mirror images keep the distances to the line. *)
Theorem committed_fold_safe_for_new_sheet (k : Z) (baseGeom : SheetGeometry R)
    (foldLine : Line R) (geom : SheetGeometry R) (out : OutLine R) :
  check_and_commit k baseGeom foldLine = Some (geom, out) ->
  isSafeFold foldLine baseGeom = true /\ isSafeFold foldLine geom = true.
Proof.
  intros H. split; [|now apply (commit_stays_safe _ _ _ H)].
  apply check_and_commit_some in H. tauto.
Qed.

(** X9.  Over the reals, the sheet a fold produces is its own mirror image
    across the fold line: the mirror image of each of its points, lines
    and circles is again one of its points, lines and circles. *)
Theorem folded_sheet_is_symmetric (k : Z) (baseGeom : SheetGeometry R)
    (foldLine : Line R) (geom : SheetGeometry R) (out : OutLine R) :
  check_and_commit k baseGeom foldLine = Some (geom, out) ->
  (forall p, In p geom.(points) -> In (reflectPoint p foldLine) geom.(points)) /\
  (forall l, In l geom.(lines) ->
     In (mkLine (reflectPoint l.(p1) foldLine) (reflectPoint l.(p2) foldLine))
        geom.(lines)) /\
  (forall c0, In c0 geom.(circles) ->
     In (mkCircle (reflectPoint c0.(c) foldLine) c0.(r)) geom.(circles)).
Proof.
  intros H. pose proof (check_and_commit_nondegenerate _ _ _ H) as Hnd.
  rewrite <- len_sq_distSq in Hnd.
  apply check_and_commit_some in H.
  destruct H as (_ & _ & (Hp & Hl & Hc) & _).
  rewrite Hp, Hl, Hc. repeat split.
  - intros p Hin. apply in_or_app.
    apply in_app_or in Hin. destruct Hin as [Hin|Hin].
    + right. apply in_map_iff. now exists p.
    + left. apply in_map_iff in Hin. destruct Hin as (p0 & <- & H0).
      now rewrite reflectPoint_twice.
  - intros l Hin. apply in_app_or in Hin. destruct Hin as [Hin|[<-|[]]].
    + apply in_or_app. left. apply in_or_app.
      apply in_app_or in Hin. destruct Hin as [Hin|Hin].
      * right. apply in_map_iff. now exists l.
      * left. apply in_map_iff in Hin. destruct Hin as (l0 & <- & H0).
        cbn [p1 p2]. now rewrite !reflectPoint_twice, line_eta.
    + apply in_or_app. right. left.
      rewrite (proj2 (reflectPoint_fixed_iff _ Hnd) (onLine_p1 foldLine)).
      rewrite (proj2 (reflectPoint_fixed_iff _ Hnd) (onLine_p2 foldLine)).
      symmetry. apply line_eta.
  - intros c0 Hin. apply in_or_app.
    apply in_app_or in Hin. destruct Hin as [Hin|Hin].
    + right. apply in_map_iff. now exists c0.
    + left. apply in_map_iff in Hin. destruct Hin as (c1 & <- & H1).
      cbn [c r]. rewrite reflectPoint_twice. now destruct c1.
Qed.

(** * Further properties of the engine, in every arithmetic *)

Section EngineMore.

Context {num : Type} {A : Arith num} {T : Trig num}.
Context {G : Type} (rnd : Random num G).

Lemma accepted_is_sheet_record (i : Z) (sheets : list (SheetGeometry num))
    (geom : SheetGeometry num) (out : OutLine num) :
  accepted rnd i sheets geom out -> is_sheet_record out = true.
Proof.
  intros [x1 y1 gw gh w h|cx cy gr cr|gk foldLine geom' out' k Hi Hcc];
    try reflexivity.
  apply check_and_commit_some in Hcc. destruct Hcc as (_ & _ & _ & ->).
  reflexivity.
Qed.

Lemma sheets_loop_records (count : nat) :
  forall i sheets file g ok sheets' file' g',
  sheets_loop rnd count i sheets file g = ((ok, sheets', file'), g') ->
  exists geoms recs,
    sheets' = sheets ++ geoms /\ file' = file ++ recs /\
    length geoms = length recs /\
    (ok = true -> length recs = count) /\
    (ok = false -> (length recs < count)%nat) /\
    forallb is_sheet_record recs = true.
Proof.
  induction count as [|count IH]; intros i sheets file g ok sheets' file' g' H;
    cbn [sheets_loop] in H.
  - unfold ret in H. inversion H; subst. exists [], [].
    rewrite !app_nil_r. repeat split; auto. discriminate.
  - unfold bind in H.
    destruct (retry (sheet_attempt rnd i sheets) MAX_TRIES 0 g)
      as [[[[geom out]|] tc] g1] eqn:E; cbn [fst] in H.
    + apply retry_some in E. destruct E as (j & _ & _ & Hb & _).
      apply sheet_attempt_accepted, accepted_is_sheet_record in Hb.
      apply IH in H. destruct H as (geoms & recs & -> & -> & Hl & Hok & Hko & Hk).
      exists (geom :: geoms), (out :: recs). rewrite <- !app_assoc.
      split; [reflexivity|]. split; [reflexivity|]. split; [simpl; lia|].
      split; [intros He; simpl; f_equal; auto|].
      split; [intros He; specialize (Hko He); simpl; lia|].
      simpl. now rewrite Hb, Hk.
    + unfold ret in H. inversion H; subst. exists [], [].
      rewrite !app_nil_r.
      split; [reflexivity|]. split; [reflexivity|]. split; [reflexivity|].
      split; [discriminate|]. split; [intros _; simpl; lia|reflexivity].
Qed.

Lemma query_attempt_accepted (n : Z) (sheets : list (SheetGeometry num))
    (g g' : G) (out : OutLine num) :
  query_attempt rnd n sheets g = (Some out, g') ->
  query_accepted rnd n sheets out.
Proof.
  unfold query_attempt. run_bind.
  destruct (uniform_int_distribution rnd 1 n g) as [k g0] eqn:Ek.
  destruct (uniform_int_distribution rnd 0 2 g0) as [strategy g1].
  destruct (choose_query_point rnd strategy _ g1) as [p g2].
  destruct (isSafePoint p _) eqn:Es; intros H; inversion H; subst; clear H.
  exists g, p. rewrite Ek. cbn [fst]. split; [reflexivity|exact Es].
Qed.

Lemma queries_loop_records (count : nat) :
  forall n sheets file g ok file' g',
  queries_loop rnd count n sheets file g = ((ok, file'), g') ->
  exists recs,
    file' = file ++ recs /\
    (ok = true -> length recs = count) /\
    (ok = false -> (length recs < count)%nat) /\
    Forall (query_accepted rnd n sheets) recs.
Proof.
  induction count as [|count IH]; intros n sheets file g ok file' g' H;
    cbn [queries_loop] in H.
  - unfold ret in H. inversion H; subst. exists [].
    rewrite app_nil_r. repeat split; auto. discriminate.
  - unfold bind in H.
    destruct (retry (query_attempt rnd n sheets) MAX_TRIES 0 g)
      as [[[out|] tc] g1] eqn:E; cbn [fst] in H.
    + apply retry_some in E. destruct E as (j & _ & _ & Hb & _).
      apply query_attempt_accepted in Hb.
      apply IH in H. destruct H as (recs & -> & Hok & Hko & Hall).
      exists (out :: recs). rewrite <- app_assoc.
      split; [reflexivity|].
      split; [intros He; simpl; f_equal; auto|].
      split; [intros He; specialize (Hko He); simpl; lia|].
      now constructor.
    + unfold ret in H. inversion H; subst. exists [].
      rewrite app_nil_r. split; [reflexivity|].
      split; [discriminate|]. split; [intros _; simpl; lia|constructor].
Qed.

Lemma query_accepted_is_query_record (n : Z) (sheets : list (SheetGeometry num))
    (recs : list (OutLine num)) :
  Forall (query_accepted rnd n sheets) recs ->
  forallb is_query_record recs = true.
Proof.
  induction 1 as [|o recs (g & p & -> & _) _ IH]; [reflexivity|].
  simpl. exact IH.
Qed.

(** The run of [generate_test] on an open stream, cut into its phases. *)
Lemma generate_test_phases (n q : Z) (g g' : G) (ok : bool)
    (file : list (OutLine num)) :
  generate_test rnd true n q g = ((ok, file), g') ->
  exists oks sheets sfile g1,
    sheets_phase rnd n q g = ((oks, sheets, sfile), g1) /\
    ((oks = false /\ ok = false /\ file = sfile /\ g' = g1) \/
     (oks = true /\
      queries_loop rnd (Z.to_nat q) n sheets sfile g1 = ((ok, file), g'))).
Proof.
  unfold generate_test. cbn [negb]. unfold bind.
  destruct (sheets_phase rnd n q g) as [[[oks sheets] sfile] g1].
  intros H. exists oks, sheets, sfile, g1. split; [reflexivity|].
  destruct oks; cbn [negb] in H.
  - right. auto.
  - left. unfold ret in H. inversion H; subst. auto.
Qed.

End EngineMore.

(** X10.  Whatever [generate_test] returns on an open stream, the file holds
    the header line, then records of sheets only (["P"], ["K"] or ["Z"]),
    then records of queries only.  When it returns [true] there are
    exactly [n] and [q] of them; when it returns [false] a sheet or a
    query is missing. *)
Theorem output_file_layout (num : Type) (A : Arith num) (T : Trig num)
    (G : Type) (rnd : Random num G) (n q : Z) (g g' : G) (ok : bool)
    (file : list (OutLine num)) :
  generate_test rnd true n q g = ((ok, file), g') ->
  exists srecs qrecs,
    file = Header n q :: srecs ++ qrecs /\
    forallb is_sheet_record srecs = true /\
    forallb is_query_record qrecs = true /\
    (ok = true ->
       length srecs = Z.to_nat n /\ length qrecs = Z.to_nat q) /\
    (ok = false ->
       (length srecs < Z.to_nat n)%nat \/
       (length srecs = Z.to_nat n /\ (length qrecs < Z.to_nat q)%nat)).
Proof.
  intros H. apply generate_test_phases in H.
  destruct H as (oks & sheets & sfile & g1 & Hs & Hq).
  unfold sheets_phase in Hs. apply sheets_loop_records in Hs.
  destruct Hs as (geoms & srecs & _ & -> & _ & Hok & Hko & Hk).
  destruct Hq as [(-> & -> & -> & ->)|(-> & Hq)].
  - exists srecs, []. rewrite app_nil_r.
    split; [reflexivity|]. split; [exact Hk|]. split; [reflexivity|].
    split; [discriminate|]. intros _. left. now apply Hko.
  - specialize (Hok eq_refl).
    apply queries_loop_records in Hq.
    destruct Hq as (qrecs & -> & Hokq & Hkoq & Hall).
    exists srecs, qrecs. rewrite <- app_assoc.
    split; [reflexivity|]. split; [exact Hk|].
    split; [now apply query_accepted_is_query_record in Hall|].
    split; [intros He; split; [exact Hok|now apply Hokq]|].
    intros He. right. split; [exact Hok|now apply Hkoq].
Qed.

Lemma sheet_attempt_first (num : Type) (A : Arith num) (T : Trig num)
    (G : Type) (rnd : Random num G) (sheets : list (SheetGeometry num)) (g : G) :
  exists geom out g',
    sheet_attempt rnd 1 sheets g = (Some (geom, out), g') /\
    is_fresh_record out = true.
Proof.
  unfold sheet_attempt. run_bind.
  change (1 =? 1)%Z with true. cbv beta iota.
  destruct (rng_call rnd g) as [v g0].
  pose proof (Z.mod_pos_bound v 2 ltac:(lia)) as Hv.
  assert (Hc : (v mod 2 = 0 \/ v mod 2 = 1)%Z) by lia.
  destruct Hc as [-> | ->]; cbn [Z.eqb andb Pos.eqb].
  - destruct (coord_dist rnd g0) as [x1 g1].
    destruct (coord_dist rnd g1) as [y1 g2].
    destruct (size_dist rnd g2) as [w g3].
    destruct (size_dist rnd g3) as [h g4].
    eexists _, _, _. split; reflexivity.
  - destruct (coord_dist rnd g0) as [cx g1].
    destruct (coord_dist rnd g1) as [cy g2].
    destruct (size_dist rnd g2) as [cr g3].
    eexists _, _, _. split; reflexivity.
Qed.

(** X11.  The loop of sheet 1 never retries: whatever the stream, its first
    pass is accepted and builds a rectangle or a circle.  So for one
    sheet and no query [generate_test] always returns [true], having
    written the header and that record. *)
Theorem first_sheet_always_accepted (num : Type) (A : Arith num) (T : Trig num)
    (G : Type) (rnd : Random num G) (g : G) :
  exists geom out g',
    retry (sheet_attempt rnd 1 [no_geometry]) MAX_TRIES 0 g
      = ((Some (geom, out), 0%nat), g') /\
    is_fresh_record out = true /\
    generate_test rnd true 1 0 g = ((true, [Header 1 0; out]), g').
Proof.
  destruct (@sheet_attempt_first _ A T _ rnd [no_geometry] g)
    as (geom & out & g' & Ha & Hf).
  exists geom, out, g'.
  assert (Hr : retry (sheet_attempt rnd 1 [no_geometry]) MAX_TRIES 0 g
               = ((Some (geom, out), 0%nat), g')).
  { change MAX_TRIES with (S 99). now apply retry_first. }
  split; [exact Hr|]. split; [exact Hf|].
  unfold generate_test, sheets_phase. cbn [negb].
  change (Z.to_nat 1) with 1%nat. change (Z.to_nat 0) with 0%nat.
  cbn [sheets_loop queries_loop]. unfold bind. rewrite Hr. reflexivity.
Qed.

(** *** The shape of the committed sheets *)

Lemma pow2_double (m : nat) : (2 * 2 ^ m = 2 ^ S m)%nat.
Proof. simpl. lia. Qed.

Lemma well_formed_step (num : Type) (A : Arith num) (T : Trig num)
    (G : Type) (rnd : Random num G) (i : Z)
    (sheets : list (SheetGeometry num)) (geom : SheetGeometry num)
    (out : OutLine num) :
  IntContract rnd ->
  sheets_well_formed i sheets -> accepted rnd i sheets geom out ->
  sheets_well_formed (i + 1) (sheets ++ [geom]).
Proof.
  intros HC (Hi & Hlen & Hall) Hacc.
  split; [lia|]. split; [rewrite length_app; simpl; lia|].
  intros j s Hj Hn.
  apply nth_error_snoc_inv in Hn. destruct Hn as [[_ Hn]|[_ <-]]; [eauto|].
  destruct Hacc as [x1 y1 gw gh w h|cx cy gr cr|gk foldLine geom out k Hne Hcc].
  - split; [exists 2%nat; reflexivity|left; reflexivity].
  - split; [exists 0%nat; reflexivity|right; reflexivity].
  - assert (Hk : (1 <= k <= i - 1)%Z) by (apply HC; lia).
    apply check_and_commit_some in Hcc.
    destruct Hcc as (_ & _ & (Hp & _ & Hc) & _).
    assert (Hb : sheet_well_formed (at_index sheets k no_geometry)).
    { apply (Hall (Z.to_nat k)); [lia|].
      unfold at_index. apply nth_error_nth'. lia. }
    destruct Hb as [[m Hm] Hcs]. split.
    + exists (S m). rewrite Hp, length_app, length_map, Hm.
      rewrite <- pow2_double. lia.
    + rewrite Hp, Hc. destruct Hcs as [E|E].
      * left. now rewrite E.
      * right. rewrite <- E. rewrite map_app, !map_map. reflexivity.
Qed.

(** X12.  Under the range contract of the integer distribution, every sheet the
    engine commits (index 1 and up; index 0 is the empty sentinel) has a
    number of points that is a power of two, so never none, and its
    circles, if it has any, are centred at its points, in the same
    order. *)
Theorem committed_sheets_shape (num : Type) (A : Arith num) (T : Trig num)
    (G : Type) (rnd : Random num G) (n q : Z) (g g' : G) (ok : bool)
    (sheets : list (SheetGeometry num)) (file : list (OutLine num)) :
  IntContract rnd ->
  sheets_phase rnd n q g = ((ok, sheets, file), g') ->
  nth_error sheets 0 = Some no_geometry /\
  forall j s, (1 <= j)%nat -> nth_error sheets j = Some s ->
    s.(points) <> [] /\
    (exists m : nat, length s.(points) = (2 ^ m)%nat) /\
    (s.(circles) = [] \/ map (@c num) s.(circles) = s.(points)).
Proof.
  intros HC H. unfold sheets_phase in H. split.
  - apply sheets_loop_records in H. destruct H as (geoms & recs & -> & _).
    reflexivity.
  - eapply sheets_loop_invariant
      with (P := fun i sheets _ => sheets_well_formed i sheets) in H.
    + destruct H as (done & _ & (_ & _ & Hall) & _).
      intros j s Hj Hn. destruct (Hall j s Hj Hn) as [[m Hm] Hc].
      split; [|split; [now exists m|exact Hc]].
      intros E. rewrite E in Hm. simpl in Hm.
      pose proof (Nat.pow_nonzero 2 m ltac:(lia)). lia.
    + intros i sh fl geom out Hinv Hacc. eapply well_formed_step; eauto.
    + split; [lia|]. split; [reflexivity|].
      intros [|[|j]] s Hj Hn; simpl in Hn; try discriminate. lia.
Qed.

(** *** What was written was accepted by the oracle *)

Lemma fold_records_safe_step (num : Type) (A : Arith num) (T : Trig num)
    (G : Type) (rnd : Random num G) (i : Z)
    (sheets : list (SheetGeometry num)) (file : list (OutLine num))
    (geom : SheetGeometry num) (out : OutLine num) :
  IntContract rnd ->
  fold_records_ok i sheets file /\ fold_records_safe sheets file ->
  accepted rnd i sheets geom out ->
  fold_records_ok (i + 1) (sheets ++ [geom]) (file ++ [out]) /\
  fold_records_safe (sheets ++ [geom]) (file ++ [out]).
Proof.
  intros HC [Hok Hsafe] Hacc.
  split; [eapply fold_records_step; eauto|].
  destruct Hok as (Hi & Hls & Hlf & _).
  intros j k x1 y1 x2 y2 Hj.
  apply nth_error_snoc_inv in Hj. destruct Hj as [[Hlt Hj]|[-> ->]].
  - destruct (Hsafe _ _ _ _ _ _ Hj) as (src & Hsrc & Hs).
    exists src. split; [|exact Hs].
    rewrite nth_error_app1; [exact Hsrc|].
    apply nth_error_Some. congruence.
  - inversion Hacc as [? ? ? ? ? ? Hg Ho|? ? ? ? Hg Ho|gk foldLine geom' out' k' Hne Hcc Hg Ho];
      try discriminate.
    subst. apply check_and_commit_some in Hcc.
    destruct Hcc as (_ & Hs & _ & Ho). inversion Ho; subst; clear Ho.
    assert (Hk : (1 <= k' <= i - 1)%Z) by (apply HC; lia).
    exists (at_index sheets k' no_geometry). split.
    + rewrite nth_error_snoc_old by lia.
      unfold at_index. apply nth_error_nth'. lia.
    + destruct foldLine as [[ax ay] [bx by_]]. exact Hs.
Qed.

(** X13.  Under the range contract of the integer distribution, every ["Z"]
    record of the file names a source sheet that exists and for which
    [isSafeFold] accepted the recorded line, a line that also passed the
    degeneracy guard. *)
Theorem committed_folds_were_safe (num : Type) (A : Arith num) (T : Trig num)
    (G : Type) (rnd : Random num G) (n q : Z) (g g' : G) (ok : bool)
    (sheets : list (SheetGeometry num)) (file : list (OutLine num)) :
  IntContract rnd ->
  sheets_phase rnd n q g = ((ok, sheets, file), g') ->
  forall i k x1 y1 x2 y2,
    nth_error file i = Some (OutZ k x1 y1 x2 y2) ->
    exists src,
      nth_error sheets (Z.to_nat k) = Some src /\
      isSafeFold (mkLine (mkPoint x1 y1) (mkPoint x2 y2)) src = true /\
      ltb (distSq (mkPoint x1 y1) (mkPoint x2 y2)) ZERO_TOLERANCE = false.
Proof.
  intros HC H i k x1 y1 x2 y2 Hi.
  pose proof (sheets_phase_guarded _ _ _ _ H) as Hg.
  unfold sheets_phase in H.
  eapply sheets_loop_invariant
    with (P := fun i sheets file =>
                 fold_records_ok i sheets file /\ fold_records_safe sheets file)
    in H.
  - destruct H as (done & _ & (_ & Hsafe) & _).
    destruct (Hsafe _ _ _ _ _ _ Hi) as (src & Hsrc & Hs).
    exists src. split; [exact Hsrc|]. split; [exact Hs|].
    apply (Hg k). eapply nth_error_In; eauto.
  - intros j sh fl geom out Hinv Hacc. eapply fold_records_safe_step; eauto.
  - split.
    + split; [lia|]. split; [reflexivity|]. split; [reflexivity|].
      intros [|[|j]] k0 a1 b1 a2 b2 Hj; simpl in Hj; discriminate.
    + intros [|[|j]] k0 a1 b1 a2 b2 Hj; simpl in Hj; discriminate.
Qed.

Lemma sheet_records_no_query (num : Type) (recs : list (OutLine num))
    (k : Z) (qx qy : num) :
  forallb is_sheet_record recs = true -> ~ In (OutQ k qx qy) recs.
Proof.
  intros H Hin. rewrite forallb_forall in H. apply H in Hin. discriminate.
Qed.

(** X14.  Every query record of the file, whether [generate_test] ends well or
    not, is a point that [isSafePoint] accepted for the sheet the record
    names; under the range contract of the integer distribution that
    sheet is one of the sheets 1 to [n]. *)
Theorem written_queries_were_safe (num : Type) (A : Arith num) (T : Trig num)
    (G : Type) (rnd : Random num G) (n q : Z) (g g' : G) (ok : bool)
    (file : list (OutLine num)) :
  generate_test rnd true n q g = ((ok, file), g') ->
  exists oks sheets sfile g1,
    sheets_phase rnd n q g = ((oks, sheets, sfile), g1) /\
    forall k qx qy, In (OutQ k qx qy) file ->
      isSafePoint (mkPoint qx qy) (at_index sheets k no_geometry) = true /\
      (IntContract rnd -> (1 <= n)%Z ->
         (1 <= k <= n)%Z /\
         nth_error sheets (Z.to_nat k) = Some (at_index sheets k no_geometry)).
Proof.
  intros H. apply generate_test_phases in H.
  destruct H as (oks & sheets & sfile & g1 & Hs & Hq).
  exists oks, sheets, sfile, g1. split; [exact Hs|].
  unfold sheets_phase in Hs. apply sheets_loop_records in Hs.
  destruct Hs as (geoms & srecs & -> & -> & Hlen & Hok & _ & Hk).
  intros k qx qy Hin.
  destruct Hq as [(-> & -> & -> & ->)|(-> & Hq)].
  - exfalso. destruct Hin as [Hin|Hin]; [discriminate|].
    exact (sheet_records_no_query _ _ _ _ Hk Hin).
  - apply queries_loop_records in Hq.
    destruct Hq as (qrecs & -> & _ & _ & Hall).
    apply in_app_or in Hin. destruct Hin as [[Hin|Hin]|Hin];
      [discriminate | exfalso; exact (sheet_records_no_query _ _ _ _ Hk Hin) |].
    rewrite Forall_forall in Hall. destruct (Hall _ Hin) as (g0 & p & Ho & Hsafe).
    inversion Ho; subst. destruct p as [px py]. cbn [x y].
    split; [exact Hsafe|].
    intros HC Hn.
    assert (Hr : (1 <= fst (uniform_int_distribution rnd 1 n g0) <= n)%Z)
      by (apply HC; lia).
    split; [exact Hr|].
    unfold at_index. apply nth_error_nth'.
    rewrite length_app, Hlen, (Hok eq_refl). simpl. lia.
Qed.

(** * Fresh sheets, over the reals *)

Lemma clear_at_least_one (d : R) : 1 <= d -> clear d.
Proof. intros H. apply clear_far. pose proof DANGER_EPS_lt_1. lra. Qed.

Lemma clear_dist_of_sq (a b : Point R) :
  distSq a b = 0 \/ 1 <= distSq a b -> clear (dist a b).
Proof.
  unfold dist. rarith. intros [->|H].
  - rewrite sqrt_0. apply clear_zero.
  - apply clear_at_least_one. rewrite <- sqrt_1. now apply sqrt_le_1_alt.
Qed.

Lemma clear_line_of_cross (p : Point R) (l : Line R) :
  ZERO_TOLERANCE <= len_sq l ->
  (p.(x) - l.(p1).(x)) * (l.(p2).(y) - l.(p1).(y)) -
    (p.(y) - l.(p1).(y)) * (l.(p2).(x) - l.(p1).(x)) = 0 \/
  len_sq l <=
    Rsqr ((p.(x) - l.(p1).(x)) * (l.(p2).(y) - l.(p1).(y)) -
          (p.(y) - l.(p1).(y)) * (l.(p2).(x) - l.(p1).(x))) ->
  clear (distPointLine p l).
Proof.
  intros H Hc. pose proof ZERO_TOLERANCE_pos as Hz.
  rewrite distPointLine_nondeg by exact H.
  apply clear_dist_of_sq. rewrite distSq_foot by lra.
  destruct Hc as [->|Hc].
  - left. unfold Rsqr. field. lra.
  - right. apply Rmult_le_reg_r with (len_sq l); [lra|].
    unfold Rdiv. rewrite Rmult_assoc, Rinv_l by lra. lra.
Qed.

Lemma rectangle_corners_safe (x1 y1 w h : R) (p : Point R) :
  1 <= w -> 1 <= h ->
  let geom :=
    mkSheet
      [mkPoint x1 y1; mkPoint (x1 + w) y1;
       mkPoint (x1 + w) (y1 + h); mkPoint x1 (y1 + h)]
      [mkLine (mkPoint x1 y1) (mkPoint (x1 + w) y1);
       mkLine (mkPoint (x1 + w) y1) (mkPoint (x1 + w) (y1 + h));
       mkLine (mkPoint (x1 + w) (y1 + h)) (mkPoint x1 (y1 + h));
       mkLine (mkPoint x1 (y1 + h)) (mkPoint x1 y1)]
      [] in
  In p geom.(points) -> isSafePoint p geom = true.
Proof.
  intros Hw Hh geom Hin. subst geom. cbn [points] in Hin.
  assert (Hww : 1 <= w * w) by nra. assert (Hhh : 1 <= h * h) by nra.
  assert (Hwh : 0 <= (w * w - 1) * (h * h)) by nra.
  assert (Hhw : 0 <= (h * h - 1) * (w * w)) by nra.
  apply isSafePoint_true_iff. cbn [points lines circles].
  destruct Hin as [<-|[<-|[<-|[<-|[]]]]];
    (split;
     [ intros pt [<-|[<-|[<-|[<-|[]]]]]; apply clear_dist_of_sq;
       unfold distSq; rarith; first [left; nra | right; nra]
     | split;
       [ intros l [<-|[<-|[<-|[<-|[]]]]];
         (apply clear_line_of_cross;
          [ rewrite ZERO_TOLERANCE_R; unfold len_sq; rarith; nra
          | unfold len_sq, Rsqr; rarith; first [left; nra | right; nra] ])
       | intros c0 [] ] ]).
Qed.

Lemma circle_centre_safe (cx cy cr : R) :
  1 <= cr ->
  isSafePoint (mkPoint cx cy)
    (mkSheet [mkPoint cx cy] [] [mkCircle (mkPoint cx cy) cr]) = true.
Proof.
  intros Hr. apply isSafePoint_true_iff. cbn [points lines circles].
  assert (Hd : dist (mkPoint cx cy) (mkPoint cx cy) = 0)
    by now apply dist_zero_iff.
  split; [|split].
  - intros pt [<-|[]]. rewrite Hd. apply clear_zero.
  - intros l [].
  - intros c0 [<-|[]]. cbn [c r]. rewrite Hd.
    apply clear_at_least_one. rewrite Rabs_left1; lra.
Qed.

(** X15.  Over the reals and under the contract of the distributions, every
    point stored on a freshly drawn rectangle or circle sheet (the four
    corners, the centre) is accepted by [isSafePoint] against that sheet:
    a query that takes an existing point of a fresh sheet is never
    rejected. *)
Theorem fresh_sheet_points_are_safe (G : Type) (rnd : Random R G) (i : Z)
    (sheets : list (SheetGeometry R)) (g g' : G)
    (geom : SheetGeometry R) (out : OutLine R) :
  RandomContract rnd ->
  sheet_attempt rnd i sheets g = (Some (geom, out), g') ->
  is_fresh_record out = true ->
  forall p, In p geom.(points) -> isSafePoint p geom = true.
Proof.
  intros HC H Hf p Hin. apply sheet_attempt_accepted in H.
  destruct H as [x1 y1 gw gh w h|cx cy gr cr|gk foldLine geom out k Hne Hcc].
  - rarith. apply rectangle_corners_safe; [| |exact Hin];
      apply size_dist_range, HC.
  - destruct Hin as [<-|[]]. apply circle_centre_safe.
    apply size_dist_range, HC.
  - apply check_and_commit_some in Hcc. destruct Hcc as (_ & _ & _ & ->).
    discriminate.
Qed.

(** * The callers *)

Lemma list_ascii_of_append (a b : string) :
  list_ascii_of_string (a ++ b)%string
  = list_ascii_of_string a ++ list_ascii_of_string b.
Proof. induction a as [|ch a IH]; simpl; [reflexivity|now rewrite IH]. Qed.

Lemma list_ascii_of_string_inj (a b : string) :
  list_ascii_of_string a = list_ascii_of_string b -> a = b.
Proof.
  intros H. rewrite <- (string_of_list_ascii_of_string a),
    <- (string_of_list_ascii_of_string b). now rewrite H.
Qed.

Lemma append_inv_head (a s1 s2 : string) :
  (a ++ s1 = a ++ s2)%string -> s1 = s2.
Proof.
  intros H. apply list_ascii_of_string_inj.
  apply (f_equal list_ascii_of_string) in H.
  rewrite !list_ascii_of_append in H. now apply app_inv_head in H.
Qed.

Lemma append_inv_tail (a s1 s2 : string) :
  (s1 ++ a = s2 ++ a)%string -> s1 = s2.
Proof.
  intros H. apply list_ascii_of_string_inj.
  apply (f_equal list_ascii_of_string) in H.
  rewrite !list_ascii_of_append in H. now apply app_inv_tail in H.
Qed.

Lemma to_string_inj (i j : Z) : to_string i = to_string j -> i = j.
Proof.
  unfold to_string. intros H. apply DecimalZ.to_int_inj.
  pose proof (NilEmpty.isi (Z.to_int i)) as Hi.
  pose proof (NilEmpty.isi (Z.to_int j)) as Hj.
  rewrite H in Hi. congruence.
Qed.

Lemma file_path_inj (group : string) (i j : Z) :
  file_path group i = file_path group j -> i = j.
Proof.
  unfold file_path. intros H.
  apply append_inv_tail in H. apply append_inv_head in H.
  now apply to_string_inj.
Qed.

Lemma groups_disjoint (i j : Z) :
  file_path "wojtekmal_tiny" i <> file_path "wojtekmal_small" j.
Proof. unfold file_path. simpl. discriminate. Qed.

(** X16.  Two indices of one group never share a file, and no file of
    ["wojtekmal_tiny"] is a file of ["wojtekmal_small"]: the calls of
    [main] write each test to a path of its own. *)
Theorem file_paths_are_distinct :
  (forall group i j, file_path group i = file_path group j -> i = j) /\
  (forall i j, file_path "wojtekmal_tiny" i <> file_path "wojtekmal_small" j).
Proof. split; [apply file_path_inj|apply groups_disjoint]. Qed.

Section CallersFacts.

Context {num : Type} {A : Arith num} {T : Trig num}.
Context {G : Type} (rnd : Random num G).
Variable openable : string -> bool.

Lemma generate_test_on_result (path : string) (n q : Z) (fs fs' : Files num)
    (g g' : G) (ok : bool) :
  generate_test_on rnd openable path n q fs g = ((ok, fs'), g') ->
  (openable path = false /\ ok = false /\ fs' = fs /\ g' = g) \/
  (openable path = true /\
   exists content,
     generate_test rnd true n q g = ((ok, content), g') /\
     fs' = write_file path content fs).
Proof.
  unfold generate_test_on, bind, ret.
  destruct (openable path) eqn:E.
  - destruct (generate_test rnd true n q g) as [[ok0 content] g0].
    cbn [fst snd]. intros H. inversion H; subst. right.
    split; [reflexivity|]. now exists content.
  - cbn. intros H. inversion H; subst. left. auto.
Qed.

Lemma write_file_same (path : string) (content : list (OutLine num))
    (fs : Files num) :
  write_file path content fs path = Some content.
Proof. unfold write_file. now rewrite String.eqb_refl. Qed.

Lemma write_file_other (path p : string) (content : list (OutLine num))
    (fs : Files num) :
  p <> path -> write_file path content fs p = fs p.
Proof. intros H. unfold write_file. apply String.eqb_neq in H. now rewrite H. Qed.

Lemma fill_group_spec (group : string) (count n q : Z) (fuel : nat) :
  forall i fs g fs' g',
  fill_group rnd openable fuel group count n q i fs g = (Some fs', g') ->
  (forall j, (i <= j < count)%Z ->
     openable (file_path group j) = true /\
     exists content,
       fs' (file_path group j) = Some content /\
       complete_file rnd n q content) /\
  (forall p, (forall j, (i <= j < count)%Z -> p <> file_path group j) ->
     fs' p = fs p).
Proof.
  induction fuel as [|fuel IH]; intros i fs g fs' g' H;
    cbn [fill_group] in H; destruct (i <? count)%Z eqn:Ei;
    try (unfold ret in H; discriminate).
  - unfold ret in H. inversion H; subst. apply Z.ltb_ge in Ei.
    split; [intros j Hj; lia|reflexivity].
  - unfold bind in H. apply Z.ltb_lt in Ei.
    unfold generate_test_with_group_index in H.
    destruct (generate_test_on rnd openable (file_path group i) n q fs g)
      as [[ok fs1] g1] eqn:Eg. cbn [fst snd] in H.
    apply generate_test_on_result in Eg.
    apply IH in H. destruct H as [Hfiles Hrest].
    destruct Eg as [(Ho & -> & -> & ->)|(Ho & content & Hrun & ->)].
    + split; [exact Hfiles|exact Hrest].
    + destruct ok.
      * split.
        -- intros j Hj. destruct (Z.eq_dec j i) as [->|Hne].
           ++ split; [exact Ho|]. exists content. split.
              ** rewrite Hrest; [apply write_file_same|].
                 intros j Hj' E. apply file_path_inj in E. lia.
              ** now exists g, g1.
           ++ apply Hfiles. lia.
        -- intros p Hp. rewrite Hrest by (intros j Hj; apply Hp; lia).
           apply write_file_other. apply Hp. lia.
      * split; [exact Hfiles|].
        intros p Hp. rewrite Hrest by exact Hp.
        apply write_file_other. apply Hp. lia.
  - unfold ret in H. inversion H; subst. apply Z.ltb_ge in Ei.
    split; [intros j Hj; lia|reflexivity].
Qed.

Lemma fill_group_more_fuel (group : string) (count n q : Z) (fuel extra : nat) :
  forall i fs g fs' g',
  fill_group rnd openable fuel group count n q i fs g = (Some fs', g') ->
  fill_group rnd openable (fuel + extra) group count n q i fs g = (Some fs', g').
Proof.
  induction fuel as [|fuel IH]; intros i fs g fs' g' H.
  - cbn [fill_group] in H. destruct (i <? count)%Z eqn:Ei;
      [unfold ret in H; discriminate|].
    destruct extra; cbn [Nat.add fill_group]; now rewrite Ei.
  - cbn [Nat.add fill_group] in *. destruct (i <? count)%Z; [|exact H].
    unfold bind in *.
    destruct (generate_test_with_group_index rnd openable group i n q fs g)
      as [res g1].
    now apply IH.
Qed.

Lemma fill_group_blocked (group : string) (count n q : Z) (i : Z) :
  openable (file_path group i) = false -> (i < count)%Z ->
  forall fuel fs g,
    fill_group rnd openable fuel group count n q i fs g = (None, g).
Proof.
  intros Ho Hi. apply Z.ltb_lt in Hi.
  induction fuel as [|fuel IH]; intros fs g; cbn [fill_group]; rewrite Hi;
    [reflexivity|].
  unfold bind, generate_test_with_group_index, generate_test_on, bind, ret.
  rewrite Ho. cbn. apply IH.
Qed.

End CallersFacts.

(** X17.  When a loop of [main] ends, every index of the group has a file and
    each file is what one successful call of [generate_test] wrote: the
    leftovers of failed calls have been overwritten, and no other path was
    touched.  More fuel gives the same result. *)
Theorem finished_group_is_complete (num : Type) (A : Arith num) (T : Trig num)
    (G : Type) (rnd : Random num G) (openable : string -> bool)
    (group : string) (count n q : Z) (fuel : nat)
    (fs fs' : Files num) (g g' : G) :
  fill_group rnd openable fuel group count n q 0 fs g = (Some fs', g') ->
  (forall j, (0 <= j < count)%Z ->
     openable (file_path group j) = true /\
     exists content,
       fs' (file_path group j) = Some content /\
       complete_file rnd n q content) /\
  (forall p, (forall j, (0 <= j < count)%Z -> p <> file_path group j) ->
     fs' p = fs p) /\
  (forall extra,
     fill_group rnd openable (fuel + extra) group count n q 0 fs g
       = (Some fs', g')).
Proof.
  intros H. destruct (fill_group_spec _ _ _ _ _ _ _ _ _ _ H) as [H1 H2].
  split; [exact H1|]. split; [exact H2|].
  intros extra. now apply fill_group_more_fuel.
Qed.

(** X18.  A path that does not open stops [main] for good: the call returns
    [false] without drawing from the stream, the index does not advance,
    and the loop reaches any bound on its number of calls. *)
Theorem unopenable_path_blocks_main (num : Type) (A : Arith num) (T : Trig num)
    (G : Type) (rnd : Random num G) (openable : string -> bool) :
  (forall path n q fs g,
     openable path = false ->
     generate_test_on rnd openable path n q fs g = ((false, fs), g)) /\
  (forall group count n q i,
     openable (file_path group i) = false -> (i < count)%Z ->
     forall fuel fs g,
       fill_group rnd openable fuel group count n q i fs g = (None, g)) /\
  (openable (file_path "wojtekmal_tiny" 0) = false ->
   forall fuel fs g, main rnd openable fuel fs g = (None, g)).
Proof.
  split; [|split].
  - intros path n q fs g Ho.
    unfold generate_test_on, bind, ret. rewrite Ho. reflexivity.
  - intros group count n q i Ho Hi fuel fs g. now apply fill_group_blocked.
  - intros Ho fuel fs g. unfold main, bind.
    rewrite fill_group_blocked by (exact Ho || lia). reflexivity.
Qed.

(** X19.  When [main] ends, each of the 10000 paths of ["wojtekmal_tiny"] holds
    the output of a successful call with 3 sheets and 3 queries, and each
    of the 10000 paths of ["wojtekmal_small"] that of a successful call
    with 10 sheets and 100 queries. *)
Theorem main_leaves_complete_files (num : Type) (A : Arith num) (T : Trig num)
    (G : Type) (rnd : Random num G) (openable : string -> bool)
    (fuel : nat) (fs fs' : Files num) (g g' : G) :
  main rnd openable fuel fs g = (Some fs', g') ->
  forall j, (0 <= j < 10000)%Z ->
    (exists content,
       fs' (file_path "wojtekmal_tiny" j) = Some content /\
       complete_file rnd 3 3 content) /\
    (exists content,
       fs' (file_path "wojtekmal_small" j) = Some content /\
       complete_file rnd 10 100 content).
Proof.
  unfold main, bind. intros H j Hj.
  destruct (fill_group rnd openable fuel "wojtekmal_tiny" 10000 3 3 0 fs g)
    as [[fs1|] g1] eqn:E1; [|unfold ret in H; discriminate].
  apply fill_group_spec in E1. apply fill_group_spec in H.
  destruct E1 as [T1 _]. destruct H as [S1 S2].
  split.
  - destruct (T1 j Hj) as (_ & content & Hc & Hcomp).
    exists content. split; [|exact Hcomp].
    rewrite S2; [exact Hc|].
    intros j' _. apply groups_disjoint.
  - destruct (S1 j Hj) as (_ & content & Hc & Hcomp). now exists content.
Qed.

(** * Concrete instances of the further properties *)

Lemma slanted_line_nondegenerate :
  ZERO_TOLERANCE <= distSq slanted_line.(p1) slanted_line.(p2).
Proof. rewrite ZERO_TOLERANCE_R. unfold distSq, slanted_line. rarith. lra. Qed.

Lemma reflectPoint_fixes_exactly_the_line_witness :
  reflectPoint (mkPoint 6 8) slanted_line = mkPoint 6 8.
Proof.
  apply (proj2 (@reflectPoint_fixes_exactly_the_line (mkPoint 6 8) slanted_line
                  slanted_line_nondegenerate)).
  exists 2. unfold slanted_line. rarith. split; lra.
Defined.

Lemma reflection_mirrors_distance_witness :
  distPointLine (reflectPoint (mkPoint 1 7) slanted_line) slanted_line
    = distPointLine (mkPoint 1 7) slanted_line /\
  dist (mkPoint 1 7) (reflectPoint (mkPoint 1 7) slanted_line)
    = 2 * distPointLine (mkPoint 1 7) slanted_line.
Proof.
  exact (@reflection_mirrors_distance (mkPoint 1 7) slanted_line
           slanted_line_nondegenerate).
Defined.

Lemma distPointLine_is_least_distance_witness :
  distPointLine (mkPoint 1 7) slanted_line <= dist (mkPoint 1 7) (mkPoint 3 4).
Proof.
  apply (proj1 (@distPointLine_is_least_distance (mkPoint 1 7) slanted_line
                  slanted_line_nondegenerate)).
  exists 1. unfold slanted_line. rarith. split; lra.
Defined.

Lemma line_orientation_irrelevant_witness :
  isSafeFold (mkLine (mkPoint 3 4) (mkPoint 0 0)) circle_sheet
    = isSafeFold slanted_line circle_sheet.
Proof.
  exact (proj2 (proj2 (@line_orientation_irrelevant slanted_line
                         slanted_line_nondegenerate)) circle_sheet).
Defined.

Lemma committed_fold_safe_for_new_sheet_witness :
  isSafeFold through_centre circle_sheet = true /\
  isSafeFold through_centre folded_circle_sheet = true.
Proof.
  exact (committed_fold_safe_for_new_sheet _ _ _ commit_through_centre).
Defined.

Lemma folded_sheet_is_symmetric_witness :
  In (reflectPoint (reflectPoint (mkPoint 0 0) through_centre) through_centre)
     folded_circle_sheet.(points).
Proof.
  apply (proj1 (folded_sheet_is_symmetric _ _ _ commit_through_centre)).
  right. left. reflexivity.
Defined.

(** *** A run with one sheet and one query *)

Lemma centre_query_safe : isSafePoint (mkPoint 0 0) circle_sheet = true.
Proof. apply circle_centre_safe. lra. Qed.

Lemma query_run_sheet :
  sheet_attempt scripted 1 [no_geometry] query_script
  = (Some (circle_sheet, OutK 0 0 2), skipn 4 query_script).
Proof. unfold query_script. script_run. reflexivity. Qed.

Lemma query_run_query :
  query_attempt scripted 1 [no_geometry; circle_sheet] (skipn 4 query_script)
  = (Some (OutQ 1 0 0), []).
Proof.
  unfold query_script, query_attempt, choose_query_point, bind, ret.
  cbn [skipn]. repeat script_step.
  change (at_index [no_geometry; circle_sheet] 1 no_geometry) with circle_sheet.
  cbn [points circle_sheet length Z.of_nat Pos.of_succ_nat Z.sub Z.add Z.opp
       Z.pos_sub]. repeat script_step.
  change (at_index [mkPoint 0 0] 0 (mkPoint 0 0)) with (mkPoint 0 0).
  change (mkSheet [mkPoint 0 0] [] [mkCircle (mkPoint 0 0) 2]) with circle_sheet.
  rewrite centre_query_safe. reflexivity.
Qed.

Lemma query_run_sheets :
  sheets_phase scripted 1 1 query_script
  = ((true, [no_geometry; circle_sheet], [Header 1 1; OutK 0 0 2]),
     skipn 4 query_script).
Proof.
  unfold sheets_phase. change (Z.to_nat 1) with 1%nat.
  cbn [sheets_loop]. unfold bind at 1.
  change MAX_TRIES with (S 99).
  erewrite retry_first by apply query_run_sheet. reflexivity.
Qed.

Lemma query_run :
  generate_test scripted true 1 1 query_script
  = ((true, [Header 1 1; OutK 0 0 2; OutQ 1 0 0]), []).
Proof.
  unfold generate_test. cbn [negb]. unfold bind at 1.
  rewrite query_run_sheets. cbn [negb].
  change (Z.to_nat 1) with 1%nat. cbn [queries_loop]. unfold bind at 1.
  change MAX_TRIES with (S 99).
  erewrite retry_first by apply query_run_query. reflexivity.
Qed.

Lemma output_file_layout_witness :
  exists srecs qrecs,
    [Header 1 1; OutK 0 0 2; OutQ 1 0 0] = Header 1 1 :: srecs ++ qrecs /\
    forallb is_sheet_record srecs = true /\
    forallb is_query_record qrecs = true /\
    (true = true ->
       length srecs = Z.to_nat 1 /\ length qrecs = Z.to_nat 1) /\
    (true = false ->
       (length srecs < Z.to_nat 1)%nat \/
       (length srecs = Z.to_nat 1 /\ (length qrecs < Z.to_nat 1)%nat)).
Proof.
  exact (@output_file_layout R RArith RTrig _ scripted 1 1 query_script
           _ _ _ query_run).
Defined.

Lemma committed_sheets_shape_witness :
  folded_circle_sheet.(points) <> [] /\
  (exists m : nat, length folded_circle_sheet.(points) = (2 ^ m)%nat) /\
  (folded_circle_sheet.(circles) = [] \/
   map (@c R) folded_circle_sheet.(circles) = folded_circle_sheet.(points)).
Proof.
  exact (proj2 (@committed_sheets_shape R RArith RTrig _ scripted 2 0 fold_script
                  _ _ _ _ (int_in_range scripted_contract) fold_run)
           2%nat folded_circle_sheet ltac:(lia) eq_refl).
Defined.

Lemma committed_folds_were_safe_witness :
  exists src,
    nth_error [no_geometry; circle_sheet; folded_circle_sheet] (Z.to_nat 1)
      = Some src /\
    isSafeFold (mkLine (mkPoint 0 (-1)) (mkPoint 0 1)) src = true /\
    Rltb (distSq (mkPoint 0 (-1)) (mkPoint 0 1)) ZERO_TOLERANCE = false.
Proof.
  exact (@committed_folds_were_safe R RArith RTrig _ scripted 2 0 fold_script
           _ _ _ _ (int_in_range scripted_contract) fold_run
           2%nat 1%Z 0 (-1) 0 1 eq_refl).
Defined.

Lemma written_queries_were_safe_witness :
  exists oks sheets sfile g1,
    sheets_phase scripted 1 1 query_script = ((oks, sheets, sfile), g1) /\
    forall k qx qy, In (OutQ k qx qy) [Header 1 1; OutK 0 0 2; OutQ 1 0 0] ->
      isSafePoint (mkPoint qx qy) (at_index sheets k no_geometry) = true /\
      (IntContract scripted -> (1 <= 1)%Z ->
         (1 <= k <= 1)%Z /\
         nth_error sheets (Z.to_nat k) = Some (at_index sheets k no_geometry)).
Proof.
  exact (@written_queries_were_safe R RArith RTrig _ scripted 1 1 query_script
           _ _ _ query_run).
Defined.

Lemma fresh_sheet_points_are_safe_witness :
  isSafePoint (mkPoint 0 0) circle_sheet = true.
Proof.
  apply (@fresh_sheet_points_are_safe _ scripted 1 [no_geometry] query_script
           _ circle_sheet (OutK 0 0 2)
           scripted_contract query_run_sheet eq_refl).
  left. reflexivity.
Defined.

(** *** The callers on the stream of lowest draws *)

Lemma lowest_contract : RandomContract lowest.
Proof.
  split.
  - intros a b g Hab. cbn. lia.
  - intros a b g Hab. cbn. lra.
Qed.

Lemma lowest_sheet (i : Z) (sheets : list (SheetGeometry R)) :
  sheet_attempt lowest i sheets tt
  = (Some (corner_sheet, OutP (-10) (-10) (-10 + 1) (-10 + 1)), tt).
Proof.
  unfold sheet_attempt, type_dist, bind, ret.
  destruct (i =? 1)%Z; reflexivity.
Qed.

Lemma lowest_sheets_loop (count : nat) :
  forall i sheets file,
  sheets_loop lowest count i sheets file tt
  = ((true, sheets ++ repeat corner_sheet count,
      file ++ repeat (OutP (-10) (-10) (-10 + 1) (-10 + 1)) count), tt).
Proof.
  induction count as [|count IH]; intros i sheets file; cbn [sheets_loop repeat].
  - unfold ret. now rewrite !app_nil_r.
  - unfold bind. change MAX_TRIES with (S 99).
    erewrite retry_first by apply lowest_sheet. cbn [fst].
    rewrite IH, <- !app_assoc. reflexivity.
Qed.

Lemma corner_query_safe : isSafePoint (mkPoint (-10) (-10)) corner_sheet = true.
Proof.
  apply (@rectangle_corners_safe (-10) (-10) 1 1 (mkPoint (-10) (-10)));
    try lra.
  left. reflexivity.
Qed.

Lemma lowest_query (n : Z) (sheets : list (SheetGeometry R)) :
  at_index sheets 1 no_geometry = corner_sheet ->
  query_attempt lowest n sheets tt = (Some (OutQ 1 (-10) (-10)), tt).
Proof.
  intros Hs. unfold query_attempt, choose_query_point, coord_dist, bind, ret.
  cbn [lowest uniform_int_distribution uniform_real_distribution
       Z.eqb orb of_Z RArith x y].
  rewrite Hs, corner_query_safe. reflexivity.
Qed.

Lemma lowest_queries_loop (count : nat) :
  forall n sheets file,
  at_index sheets 1 no_geometry = corner_sheet ->
  queries_loop lowest count n sheets file tt
  = ((true, file ++ repeat (OutQ 1 (-10) (-10)) count), tt).
Proof.
  induction count as [|count IH]; intros n sheets file Hs;
    cbn [queries_loop repeat].
  - unfold ret. now rewrite app_nil_r.
  - unfold bind. change MAX_TRIES with (S 99).
    erewrite retry_first by now apply lowest_query. cbn [fst].
    rewrite IH by exact Hs. now rewrite <- app_assoc.
Qed.

Lemma lowest_generate_test (n q : Z) :
  (1 <= n)%Z ->
  exists content, generate_test lowest true n q tt = ((true, content), tt).
Proof.
  intros Hn. unfold generate_test, sheets_phase. cbn [negb]. unfold bind.
  rewrite lowest_sheets_loop. cbn [negb].
  rewrite lowest_queries_loop; [eexists; reflexivity|].
  destruct (Z.to_nat n) as [|m] eqn:E; [lia|]. reflexivity.
Qed.

Lemma lowest_fill_group (group : string) (count n q : Z) (fuel : nat) :
  (1 <= n)%Z ->
  forall i fs, (Z.to_nat (count - i) <= fuel)%nat ->
  exists fs', fill_group lowest all_open fuel group count n q i fs tt
              = (Some fs', tt).
Proof.
  intros Hn. induction fuel as [|fuel IH]; intros i fs Hf; cbn [fill_group].
  - destruct (i <? count)%Z eqn:E; [apply Z.ltb_lt in E; lia|].
    now exists fs.
  - destruct (i <? count)%Z eqn:E; [|now exists fs].
    apply Z.ltb_lt in E.
    unfold bind, generate_test_with_group_index, generate_test_on, bind, ret.
    destruct (lowest_generate_test q Hn) as [content Hc].
    change (all_open (file_path group i)) with true.
    rewrite Hc. cbn [fst snd].
    apply IH. lia.
Qed.

Lemma lowest_main_ends :
  exists fs', main lowest all_open (Z.to_nat 10000) no_files tt = (Some fs', tt).
Proof.
  unfold main, bind.
  destruct (@lowest_fill_group "wojtekmal_tiny" 10000 3 3 (Z.to_nat 10000)
              ltac:(lia) 0%Z no_files ltac:(lia)) as [fs1 H1].
  rewrite H1.
  apply lowest_fill_group; lia.
Qed.

Lemma finished_group_is_complete_witness :
  exists fs',
    fill_group lowest all_open 2 "t" 2 1 0 0 no_files tt = (Some fs', tt) /\
    (forall j, (0 <= j < 2)%Z ->
       all_open (file_path "t" j) = true /\
       exists content,
         fs' (file_path "t" j) = Some content /\
         complete_file lowest 1 0 content) /\
    (forall p, (forall j, (0 <= j < 2)%Z -> p <> file_path "t" j) ->
       fs' p = no_files p) /\
    (forall extra,
       fill_group lowest all_open (2 + extra) "t" 2 1 0 0 no_files tt
         = (Some fs', tt)).
Proof.
  destruct (@lowest_fill_group "t" 2 1 0 2 ltac:(lia) 0%Z no_files ltac:(cbn; lia))
    as [fs' H].
  exists fs'. split; [exact H|].
  exact (@finished_group_is_complete R RArith RTrig _ lowest all_open
           "t" 2 1 0 2 no_files fs' tt tt H).
Defined.

Lemma unopenable_path_blocks_main_witness :
  main lowest none_open 1000 no_files tt = (None, tt).
Proof.
  exact (proj2 (proj2 (@unopenable_path_blocks_main R RArith RTrig _ lowest
                         none_open)) eq_refl 1000%nat no_files tt).
Defined.

Lemma main_leaves_complete_files_witness :
  exists fs',
    main lowest all_open (Z.to_nat 10000) no_files tt = (Some fs', tt) /\
    (exists content,
       fs' (file_path "wojtekmal_tiny" 0) = Some content /\
       complete_file lowest 3 3 content) /\
    (exists content,
       fs' (file_path "wojtekmal_small" 0) = Some content /\
       complete_file lowest 10 100 content).
Proof.
  destruct lowest_main_ends as [fs' H].
  exists fs'. split; [exact H|].
  exact (@main_leaves_complete_files R RArith RTrig _ lowest all_open
           (Z.to_nat 10000) no_files fs' tt tt H 0%Z ltac:(lia)).
Defined.

(** * What the strategies build *)

Lemma at_index_in (U : Type) (v : list U) (i : Z) (d : U) :
  (0 <= i <= Z.of_nat (length v) - 1)%Z -> In (at_index v i d) v.
Proof. intros H. unfold at_index. apply nth_In. lia. Qed.

(** X20.  Under the range contract of the integer distribution, the strategies
    that take an existing feature do take one: on a sheet with points,
    strategy 1 starts the fold line at one of the points of the sheet and
    a query with a strategy other than 0 is one of the points of the
    sheet, in every arithmetic. *)
Theorem existing_point_strategies (num : Type) (A : Arith num) (T : Trig num)
    (G : Type) (rnd : Random num G) (geom : SheetGeometry num) (g : G) :
  IntContract rnd ->
  geom.(points) <> [] ->
  In (fst (choose_fold_line rnd 1 geom g)).(p1) geom.(points) /\
  (forall strategy, strategy <> 0%Z ->
     In (fst (choose_query_point rnd strategy geom g)) geom.(points)).
Proof.
  intros HC Hne.
  assert (He : empty (points geom) = false)
    by (destruct (points geom) eqn:E; [congruence|reflexivity]).
  assert (Hlen : (0 <= Z.of_nat (length (points geom)) - 1)%Z).
  { destruct (points geom) eqn:E; [congruence|]. cbn [length]. lia. }
  split.
  - unfold choose_fold_line. rewrite He. cbn [Z.eqb orb Pos.eqb].
    unfold bind, ret.
    pose proof (HC 0%Z _ g Hlen) as Hr.
    destruct (uniform_int_distribution rnd 0 _ g) as [idx g0]. cbn [fst] in Hr.
    destruct (uniform_real_distribution rnd _ _ g0) as [angle g1].
    cbn [fst p1]. now apply at_index_in.
  - intros strategy Hs. unfold choose_query_point. rewrite He.
    apply Z.eqb_neq in Hs. rewrite Hs. cbn [orb]. unfold bind, ret.
    pose proof (HC 0%Z _ g Hlen) as Hr.
    destruct (uniform_int_distribution rnd 0 _ g) as [idx g0]. cbn [fst] in *.
    now apply at_index_in.
Qed.

Lemma sin_cos_sqr (a : R) : sin a * sin a + cos a * cos a = 1.
Proof. pose proof (sin2_cos2 a) as H. unfold Rsqr in H. exact H. Qed.

(** X21.  Over the reals and under the contract of the distributions: on a
    sheet with points, the fold line of strategy 1 has length 1; on a
    sheet with points and circles, the fold line of strategy 2 has
    length 1 and is tangent to one of the circles of the sheet, its
    distance to the centre being the radius (in absolute value). *)
Theorem direction_and_tangent_lines (G : Type) (rnd : Random R G)
    (geom : SheetGeometry R) (g : G) :
  RandomContract rnd ->
  geom.(points) <> [] ->
  len_sq (fst (choose_fold_line rnd 1 geom g)) = 1 /\
  (geom.(circles) <> [] ->
   len_sq (fst (choose_fold_line rnd 2 geom g)) = 1 /\
   exists c0, In c0 geom.(circles) /\
     distPointLine c0.(c) (fst (choose_fold_line rnd 2 geom g)) = Rabs c0.(r)).
Proof.
  intros HC Hne.
  assert (He : empty (points geom) = false)
    by (destruct (points geom) eqn:E; [congruence|reflexivity]).
  split.
  - unfold choose_fold_line. rewrite He. cbn [Z.eqb orb Pos.eqb].
    unfold bind, ret.
    destruct (uniform_int_distribution rnd 0 _ g) as [idx g0].
    destruct (uniform_real_distribution rnd _ _ g0) as [angle g1].
    cbn [fst]. unfold len_sq. rarith.
    pose proof (sin_cos_sqr angle). nra.
  - intros Hc.
    assert (Hec : empty (circles geom) = false)
      by (destruct (circles geom) eqn:E; [congruence|reflexivity]).
    assert (Hlen : (0 <= Z.of_nat (length (circles geom)) - 1)%Z).
    { destruct (circles geom) eqn:E; [congruence|]. cbn [length]. lia. }
    unfold choose_fold_line. rewrite He, Hec. cbn [Z.eqb orb Pos.eqb negb].
    unfold bind, ret.
    pose proof (int_in_range HC) as HI. unfold IntContract in HI.
    pose proof (HI 0%Z _ g Hlen) as Hr.
    destruct (uniform_int_distribution rnd 0 _ g) as [idx g0]. cbn [fst] in Hr.
    destruct (uniform_real_distribution rnd _ _ g0) as [angle g1].
    cbn [fst].
    set (c0 := at_index (circles geom) idx _).
    pose proof (sin_cos_sqr angle) as Hsc.
    assert (Hl : len_sq
              (mkLine (mkPoint (x (c c0) + r c0 * cos angle)
                               (y (c c0) + r c0 * sin angle))
                      (mkPoint (x (c c0) + r c0 * cos angle - sin angle)
                               (y (c c0) + r c0 * sin angle + cos angle))) = 1).
    { unfold len_sq. rarith. nra. }
    rarith. split; [exact Hl|].
    exists c0. split; [now apply at_index_in|].
    rewrite distPointLine_cross by (rewrite Hl, ZERO_TOLERANCE_R; lra).
    rewrite Hl, sqrt_1. rarith.
    match goal with
    | |- Rabs ?e / 1 = _ =>
        replace e
          with (- (r c0 * (sin angle * sin angle + cos angle * cos angle)))
          by ring
    end.
    rewrite Hsc, Rmult_1_r, Rabs_Ropp. lra.
Qed.

(** * The numbers of the fresh records, over the reals *)

Lemma coord_dist_range (G : Type) (rnd : Random R G) (g : G) :
  RandomContract rnd -> -10 <= fst (coord_dist rnd g) <= 10.
Proof. intros HC. unfold coord_dist. rarith. apply (real_in_range HC). lra. Qed.

Lemma sheet_attempt_record_range (G : Type) (rnd : Random R G) (i : Z)
    (sheets : list (SheetGeometry R)) (g g' : G)
    (geom : SheetGeometry R) (out : OutLine R) :
  RandomContract rnd ->
  sheet_attempt rnd i sheets g = (Some (geom, out), g') ->
  record_in_range out.
Proof.
  intros HC. unfold sheet_attempt. run_bind.
  set (draw := if (i =? 1)%Z then _ else _).
  destruct (draw g) as [type0 g0]. clear draw.
  set (type := if ((type0 =? 2)%Z && (i =? 1)%Z)%bool then 0%Z else type0).
  destruct (type =? 0)%Z.
  { pose proof (coord_dist_range g0 HC) as Hx.
    destruct (coord_dist rnd g0) as [x1 g1].
    pose proof (coord_dist_range g1 HC) as Hy.
    destruct (coord_dist rnd g1) as [y1 g2].
    pose proof (size_dist_range g2 HC) as Hw.
    destruct (size_dist rnd g2) as [w g3].
    pose proof (size_dist_range g3 HC) as Hh.
    destruct (size_dist rnd g3) as [h g4].
    cbn [fst] in *. intros H. inversion H; subst. rarith. cbn. lra. }
  destruct (type =? 1)%Z.
  { pose proof (coord_dist_range g0 HC) as Hx.
    destruct (coord_dist rnd g0) as [cx g1].
    pose proof (coord_dist_range g1 HC) as Hy.
    destruct (coord_dist rnd g1) as [cy g2].
    pose proof (size_dist_range g2 HC) as Hr.
    destruct (size_dist rnd g2) as [cr g3].
    cbn [fst] in *. intros H. inversion H; subst. cbn. lra. }
  destruct (uniform_int_distribution rnd 1 (i - 1) g0) as [k g1].
  destruct (uniform_int_distribution rnd 0 2 g1) as [strategy g2].
  destruct (choose_fold_line rnd strategy _ g2) as [foldLine g3].
  intros H. inversion H as [Hc]. apply check_and_commit_some in Hc.
  destruct Hc as (_ & _ & _ & ->). exact I.
Qed.

Lemma sheets_loop_records_range (G : Type) (rnd : Random R G) (count : nat) :
  RandomContract rnd ->
  forall i sheets file g ok sheets' file' g',
  sheets_loop rnd count i sheets file g = ((ok, sheets', file'), g') ->
  Forall record_in_range file -> Forall record_in_range file'.
Proof.
  intros HC.
  induction count as [|count IH]; intros i sheets file g ok sheets' file' g' H Hf;
    cbn [sheets_loop] in H.
  - unfold ret in H. now inversion H; subst.
  - unfold bind in H.
    destruct (retry (sheet_attempt rnd i sheets) MAX_TRIES 0 g)
      as [[[[geom out]|] tc] g1] eqn:E; cbn [fst] in H.
    + apply retry_some in E. destruct E as (j & _ & _ & Hb & _).
      apply (sheet_attempt_record_range _ _ _ HC) in Hb.
      apply IH in H; [exact H|].
      apply Forall_app. split; [exact Hf|]. now constructor.
    + unfold ret in H. now inversion H; subst.
Qed.

(** X22.  Over the reals and under the contract of the distributions, every
    ["P"] record of the file has its first corner in the square
    [[-10, 10]] x [[-10, 10]] and sides between 1 and 5, so its second
    corner lies strictly up and to the right of the first; every ["K"]
    record has its centre in that square and its radius between 1 and
    5. *)
Theorem fresh_records_in_range (G : Type) (rnd : Random R G) (n q : Z)
    (g g' : G) (ok : bool) (file : list (OutLine R)) :
  RandomContract rnd ->
  generate_test rnd true n q g = ((ok, file), g') ->
  forall o, In o file -> record_in_range o.
Proof.
  intros HC H. apply generate_test_phases in H.
  destruct H as (oks & sheets & sfile & g1 & Hs & Hq).
  assert (Hsf : Forall record_in_range sfile).
  { unfold sheets_phase in Hs.
    apply (sheets_loop_records_range _ HC) in Hs; [exact Hs|].
    constructor; [exact I|constructor]. }
  apply Forall_forall.
  destruct Hq as [(-> & -> & -> & ->)|(-> & Hq)]; [exact Hsf|].
  apply queries_loop_records in Hq.
  destruct Hq as (qrecs & -> & _ & _ & Hall).
  apply Forall_app. split; [exact Hsf|].
  apply Forall_forall. intros o Ho.
  rewrite Forall_forall in Hall. destruct (Hall o Ho) as (g0 & p & -> & _).
  exact I.
Qed.

Lemma fresh_records_in_range_witness :
  record_in_range (OutK 0 0 2).
Proof.
  apply (@fresh_records_in_range _ scripted 1 1 query_script _ _ _
           scripted_contract query_run).
  right. left. reflexivity.
Defined.

Lemma existing_point_strategies_witness :
  In (fst (choose_fold_line scripted 1 circle_sheet [])).(p1)
     circle_sheet.(points).
Proof.
  apply (proj1 (@existing_point_strategies R RArith RTrig _ scripted
                  circle_sheet [] (int_in_range scripted_contract)
                  ltac:(discriminate))).
Defined.

Lemma direction_and_tangent_lines_witness :
  len_sq (fst (choose_fold_line scripted 1 circle_sheet [])) = 1.
Proof.
  apply (proj1 (@direction_and_tangent_lines _ scripted circle_sheet []
                  scripted_contract ltac:(discriminate))).
Defined.
